(** * The Aurora inverter protocol layer of weewx-aurora

    A shallow embedding of [bin/user/aurora.py] (class [AuroraInverter] and
    the [ResponseTuple] it returns): the CRC16 checksum, the framing of a
    command, the retrying exchange over the serial port and the decoders of
    the six byte payload; and of the methods of [AuroraDriver] that sit on
    it: the commands of the driver, the raw packet, the field map and the
    energy of a packet.

    Python 2 [str] values that hold packed bytes are [list byte]; Python
    integers are [Z]; dictionary keys and messages are [string].  Code that
    can raise returns a [result]. *)

From Stdlib Require Import ZArith List String Ascii Bool Lia.
From Stdlib Require Import Strings.Byte DecimalString.
Import ListNotations.
Open Scope Z_scope.

(** ** Exceptions and the error monad *)

(** The exception classes the module raises or lets through. *)
Inductive exn : Type :=
| KeyError (key : string)
| IndexError
| TypeError
| ValueError
| StructError
| DataFormatError (msg : string)
| SerialException (msg : string)
| WeeWxIOError (msg : string)
| CRCError (msg : string).

Inductive result (A : Type) : Type :=
| Return (a : A)
| Raise (e : exn).

Arguments Return {A} a.
Arguments Raise {A} e.

Definition bind {A B : Type} (m : result A) (k : A -> result B) : result B :=
  match m with
  | Return a => k a
  | Raise e => Raise e
  end.

Notation "x <- m ;; k" := (bind m (fun x => k))
  (at level 61, m at next level, right associativity).

(** ** The Python primitives the module relies on *)

Module Py.

(** [range(n)] *)
Definition range (n : Z) : list Z := map Z.of_nat (seq 0 (Z.to_nat n)).

(** [len(s)] *)
Definition len {A : Type} (l : list A) : Z := Z.of_nat (List.length l).

(** [ord(c)] of a one character string. *)
Definition ord (b : byte) : Z := Z.of_N (Byte.to_N b).

(** The character with code [x], for [x] in 0..255 ([x00] otherwise; the
    callers check the range first). *)
Definition chr (x : Z) : byte :=
  match Byte.of_N (Z.to_N x) with
  | Some b => b
  | None => x00
  end.

(** One ['B'] item of [struct.pack]: [struct.error] outside 0..255. *)
Definition pack_B (x : Z) : result byte :=
  if (0 <=? x) && (x <=? 255) then Return (chr x) else Raise StructError.

(** Where a slice bound [i] lands in a sequence of length [n]: a negative
    bound counts from the end, and both ends clip. *)
Definition clip (n i : Z) : nat :=
  Z.to_nat (Z.max 0 (Z.min n (if i <? 0 then i + n else i))).

(** [l[start:stop]]; [None] is an omitted bound. *)
Definition slice {A : Type} (start stop : option Z) (l : list A) : list A :=
  let lo := match start with Some i => clip (len l) i | None => 0%nat end in
  let hi := match stop with Some i => clip (len l) i | None => List.length l end in
  firstn (hi - lo) (skipn lo l).

(** [v[i]] for a literal index [i >= 0]. *)
Definition index (v : list byte) (i : nat) : result byte :=
  match nth_error v i with
  | Some b => Return b
  | None => Raise IndexError
  end.

(** [a == b] on strings. *)
Fixpoint str_eqb (a b : list byte) : bool :=
  match a, b with
  | [], [] => true
  | x :: a', y :: b' => Byte.eqb x y && str_eqb a' b'
  | _, _ => false
  end.

(** ["%d" % n] *)
Definition fmt_d (n : Z) : string := NilZero.string_of_int (Z.to_int n).

End Py.

(** ** The checksum *)

Definition POLY : Z := 0x8408.

(** The body of [for i in range(8)]: one bit of [_byte] into [crc]. *)
Definition crc16_bit (st : Z * Z) (i : Z) : Z * Z :=
  let '(crc, _byte) := st in
  let crc :=
    if Z.lxor (Z.land crc 0x0001) (Z.land _byte 0x0001) =? 0
    then Z.shiftr crc 1
    else Z.land (Z.lxor (Z.shiftr crc 1) POLY) 0xffff in
  (crc, Z.shiftr _byte 1).

(** The body of [for _byte in _bytes]. *)
Definition crc16_byte (crc : Z) (b : byte) : Z :=
  fst (fold_left crc16_bit (Py.range 8) (crc, Py.ord b)).

(** [AuroraInverter.crc16] *)
Definition crc16 (buf : list byte) : Z :=
  let crc := 0xffff in
  if Py.len buf =? 0 then Z.land (Z.lnot crc) 0xffff
  else
    let crc := fold_left crc16_byte buf crc in
    Z.land (Z.lnot crc) 0xffff.

(** [AuroraInverter.word2struct]: the low byte, then the high byte. *)
Definition word2struct (i : Z) : result (list byte) :=
  lo <- Py.pack_B (Z.land i 0xff) ;;
  hi <- Py.pack_B (i / 256) ;;
  Return [lo; hi].

Definition crc_failed : string := "Inverter response failed CRC check"%string.

(** [AuroraInverter.strip_crc16] *)
Definition strip_crc16 (buffer : list byte) : result (list byte) :=
  let data := Py.slice None (Some (-2)) buffer in
  let crc_bytes := Py.slice (Some (-2)) None buffer in
  crc <- word2struct (crc16 data) ;;
  if Py.str_eqb crc crc_bytes then Return data
  else Raise (CRCError crc_failed).

(** [AuroraInverter.pad] *)
Definition pad (buf : list byte) (size : Z) : result (list byte) :=
  let PAD := map (fun a => x00) (Py.range size) in
  if size >? Py.len PAD
  then Raise (DataFormatError
                ("pad: string to be padded must be <= " ++ Py.fmt_d size
                 ++ " characters in length")%string)
  else Return (buf ++ Py.slice None (Some (size - Py.len buf)) PAD).

(** ** Response tuples and the decoders *)

(** What the [data] attribute of a response can hold: a string, the single
    precision float with the given bit pattern (big endian, as
    [struct.unpack('!f', ...)] reads it), an integer, or a tuple of
    integers. *)
Inductive value : Type :=
| DStr (s : list byte)
| DFloat (bits : Z)
| DInt (n : Z)
| DTuple (l : list Z).

(** [ResponseTuple(transmission, global, data)]; [None] is Python's [None]. *)
Record ResponseTuple : Type := mkResponseTuple {
  transmission_state : option Z;
  global_state : option Z;
  data : option value
}.

Definition all_None : ResponseTuple := mkResponseTuple None None None.

Module PyData.

(** [try: body except (classes): handler] *)
Definition try_except {A : Type} (body : result A) (classes : exn -> bool)
    (handler : result A) : result A :=
  match body with
  | Return a => Return a
  | Raise e => if classes e then handler else Raise e
  end.

(** The tuple [(IndexError, TypeError)] of an [except] clause. *)
Definition IndexError_TypeError (e : exn) : bool :=
  match e with
  | IndexError | TypeError => true
  | _ => false
  end.

(** [ord(v[i])] *)
Definition ord_at (v : list byte) (i : nat) : result Z :=
  b <- Py.index v i ;; Return (Py.ord b).

(** [struct.unpack('!f', s)[0]]: [struct.error] unless [s] has four
    bytes. *)
Definition unpack_f (s : list byte) : result value :=
  match s with
  | [b3; b2; b1; b0] =>
      Return (DFloat (Py.ord b3 * 2 ^ 24 + Py.ord b2 * 2 ^ 16
                      + Py.ord b1 * 2 ^ 8 + Py.ord b0))
  | _ => Raise StructError
  end.

Definition isspace (b : byte) : bool :=
  let c := Py.ord b in (c =? 32) || ((9 <=? c) && (c <=? 13)).

Fixpoint lstrip (s : list byte) : list byte :=
  match s with
  | b :: s' => if isspace b then lstrip s' else s
  | [] => []
  end.

Fixpoint digits (acc : Z) (s : list byte) : option Z :=
  match s with
  | [] => Some acc
  | b :: s' =>
      let c := Py.ord b in
      if (48 <=? c) && (c <=? 57) then digits (10 * acc + (c - 48)) s'
      else None
  end.

(** [int(s)] of a string, base ten: white space around, an optional sign
    and at least one decimal digit; [ValueError] for anything else. *)
Definition int (s : list byte) : result Z :=
  let s := rev (lstrip (rev (lstrip s))) in
  let '(sign, body) :=
    match s with
    | b :: s' =>
        if Py.ord b =? 43 then (1, s')
        else if Py.ord b =? 45 then (-1, s')
        else (1, s)
    | [] => (1, [])
    end in
  match body with
  | [] => Raise ValueError
  | _ :: _ =>
      match digits 0 body with
      | Some n => Return (sign * n)
      | None => Raise ValueError
      end
  end.

(** [[f(a) for a in l]] *)
Fixpoint for_each {A B : Type} (f : A -> result B) (l : list A)
    : result (list B) :=
  match l with
  | [] => Return []
  | a :: l' => b <- f a ;; bs <- for_each f l' ;; Return (b :: bs)
  end.

(** [d + k] for the [data] attribute [d] of a response and an integer
    [k]: [TypeError] when [d] is [None]. *)
Definition add_int (d : option value) (k : Z) : result value :=
  match d with
  | Some (DInt n) => Return (DInt (n + k))
  | _ => Raise TypeError
  end.

End PyData.

Import PyData.

(** [AuroraInverter._dec_ascii] *)
Definition _dec_ascii (v : list byte) : result ResponseTuple :=
  try_except
    (Return (mkResponseTuple None None
               (Some (DStr (Py.slice (Some 0) (Some 6) v)))))
    IndexError_TypeError
    (Return all_None).

(** [AuroraInverter._dec_ascii_and_state] *)
Definition _dec_ascii_and_state (v : list byte) : result ResponseTuple :=
  try_except
    (t <- ord_at v 0 ;;
     g <- ord_at v 1 ;;
     Return (mkResponseTuple (Some t) (Some g)
               (Some (DStr (Py.slice (Some 2) (Some 4) v)))))
    IndexError_TypeError
    (Return all_None).

(** [AuroraInverter._dec_float] *)
Definition _dec_float (v : list byte) : result ResponseTuple :=
  try_except
    (t <- ord_at v 0 ;;
     g <- ord_at v 1 ;;
     f <- unpack_f (Py.slice (Some 2) None v) ;;
     Return (mkResponseTuple (Some t) (Some g) (Some f)))
    IndexError_TypeError
    (Return all_None).

(** [AuroraInverter._dec_week_year] *)
Definition _dec_week_year (v : list byte) : result ResponseTuple :=
  try_except
    (t <- ord_at v 0 ;;
     g <- ord_at v 1 ;;
     week <- int (Py.slice (Some 2) (Some 4) v) ;;
     year <- int (Py.slice (Some 4) (Some 6) v) ;;
     Return (mkResponseTuple (Some t) (Some g) (Some (DTuple [week; year]))))
    IndexError_TypeError
    (Return all_None).

(** [AuroraInverter._dec_int] *)
Definition _dec_int (v : list byte) : result ResponseTuple :=
  try_except
    (i3 <- ord_at v 2 ;;
     i2 <- ord_at v 3 ;;
     i1 <- ord_at v 4 ;;
     i0 <- ord_at v 5 ;;
     let _int := i3 * 2 ^ 24 + i2 * 2 ^ 16 + i1 * 2 ^ 8 + i0 in
     t <- ord_at v 0 ;;
     g <- ord_at v 1 ;;
     Return (mkResponseTuple (Some t) (Some g) (Some (DInt _int))))
    IndexError_TypeError
    (Return all_None).

(** [AuroraInverter._dec_ts] *)
Definition _dec_ts (v : list byte) : result ResponseTuple :=
  try_except
    (t <- ord_at v 0 ;;
     g <- ord_at v 1 ;;
     r <- _dec_int v ;;
     d <- add_int (data r) 946648800 ;;
     Return (mkResponseTuple (Some t) (Some g) (Some d)))
    IndexError_TypeError
    (Return all_None).

(** [AuroraInverter._dec_alarms] *)
Definition _dec_alarms (v : list byte) : result ResponseTuple :=
  try_except
    (_alarms <- for_each (fun a => int [a]) (Py.slice (Some 2) (Some 6) v) ;;
     t <- ord_at v 0 ;;
     g <- ord_at v 1 ;;
     Return (mkResponseTuple (Some t) (Some g) (Some (DTuple _alarms))))
    IndexError_TypeError
    (Return all_None).

(** The decode functions a registry entry can name.  [_dec_state] is the
    stub whose body is [pass]: it returns Python's [None]. *)
Inductive decoder : Type :=
| dec_state | dec_ascii | dec_ascii_and_state | dec_float
| dec_week_year | dec_ts | dec_int | dec_alarms.

Definition decode (fn : decoder) (v : list byte)
    : result (option ResponseTuple) :=
  match fn with
  | dec_state => Return None
  | dec_ascii => r <- _dec_ascii v ;; Return (Some r)
  | dec_ascii_and_state => r <- _dec_ascii_and_state v ;; Return (Some r)
  | dec_float => r <- _dec_float v ;; Return (Some r)
  | dec_week_year => r <- _dec_week_year v ;; Return (Some r)
  | dec_ts => r <- _dec_ts v ;; Return (Some r)
  | dec_int => r <- _dec_int v ;; Return (Some r)
  | dec_alarms => r <- _dec_alarms v ;; Return (Some r)
  end.

(** ** The command registry *)

Record command : Type := mkCommand { cmd : Z; sub : Z; fn : decoder }.

Local Open Scope string_scope.

(** [self.commands] *)
Definition commands : list (string * command) :=
  [ ("state",           mkCommand 50  0 dec_state);
    ("partNumber",      mkCommand 52  0 dec_ascii);
    ("version",         mkCommand 58  0 dec_ascii_and_state);
    ("gridV",           mkCommand 59  1 dec_float);
    ("gridC",           mkCommand 59  2 dec_float);
    ("gridP",           mkCommand 59  3 dec_float);
    ("frequency",       mkCommand 59  4 dec_float);
    ("bulkV",           mkCommand 59  5 dec_float);
    ("leakDcC",         mkCommand 59  6 dec_float);
    ("leakC",           mkCommand 59  7 dec_float);
    ("str1P",           mkCommand 59  8 dec_float);
    ("str2P",           mkCommand 59  9 dec_float);
    ("inverterT",       mkCommand 59 21 dec_float);
    ("boosterT",        mkCommand 59 22 dec_float);
    ("str1V",           mkCommand 59 23 dec_float);
    ("str1C",           mkCommand 59 25 dec_float);
    ("str2V",           mkCommand 59 26 dec_float);
    ("str2C",           mkCommand 59 27 dec_float);
    ("gridDcV",         mkCommand 59 28 dec_float);
    ("gridDcFreq",      mkCommand 59 29 dec_float);
    ("isoR",            mkCommand 59 30 dec_float);
    ("bulkDcV",         mkCommand 59 31 dec_float);
    ("gridAvV",         mkCommand 59 32 dec_float);
    ("bulkMidV",        mkCommand 59 33 dec_float);
    ("gridNV",          mkCommand 59 34 dec_float);
    ("dayPeakP",        mkCommand 59 35 dec_float);
    ("peakP",           mkCommand 59 36 dec_float);
    ("gridNPhV",        mkCommand 59 38 dec_float);
    ("serialNumber",    mkCommand 63  0 dec_ascii);
    ("manufactureDate", mkCommand 65  0 dec_week_year);
    ("timeDate",        mkCommand 70  0 dec_ts);
    ("firmwareRelease", mkCommand 72  0 dec_ascii_and_state);
    ("dayEnergy",       mkCommand 78  0 dec_int);
    ("weekEnergy",      mkCommand 78  1 dec_int);
    ("monthEnergy",     mkCommand 78  3 dec_int);
    ("yearEnergy",      mkCommand 78  4 dec_int);
    ("totalEnergy",     mkCommand 78  5 dec_int);
    ("partialEnergy",   mkCommand 78  6 dec_int);
    ("lastAlarms",      mkCommand 86  0 dec_alarms) ].

Local Close Scope string_scope.

Fixpoint lookup (d : list (string * command)) (key : string)
    : option command :=
  match d with
  | [] => None
  | (k, c) :: d' => if String.eqb k key then Some c else lookup d' key
  end.

(** [self.commands[reading]]: [KeyError] for a name that is not a key. *)
Definition commands_get (reading : string) : result command :=
  match lookup commands reading with
  | Some c => Return c
  | None => Raise (KeyError reading)
  end.

(** ** The serial port *)

(** What reaches the port, in order: the calls of [serial_port.write] and
    [serial_port.read], and the [time.sleep] between them. *)
Inductive event : Type :=
| Written (data_ : list byte)
| Slept
| ReadCalled (bytes : Z).

(** How the port answers a [write]: the count it returns ([None] is what
    old Python versions return) or a [SerialException]. *)
Inductive write_reply : Type :=
| Accepted (N : option Z)
| WriteFault (msg : string).

(** How the port answers a [read]: the bytes that arrived before the
    timeout, or a [SerialException]. *)
Inductive read_reply : Type :=
| Arrived (buffer : list byte)
| ReadFault (msg : string).

(** The port with the inverter behind it: the answers still to come and the
    events so far.  When the answers run out every write is accepted whole
    and every read times out with nothing. *)
Record serial_port : Type := mkPort {
  write_replies : list write_reply;
  read_replies : list read_reply;
  log : list event
}.

(** Code that uses the port and can raise. *)
Definition io (A : Type) : Type := serial_port -> result A * serial_port.

Definition io_bind {A B : Type} (m : io A) (k : A -> io B) : io B :=
  fun p =>
    match m p with
    | (Return a, p') => k a p'
    | (Raise e, p') => (Raise e, p')
    end.

Definition lift {A : Type} (r : result A) : io A := fun p => (r, p).

Notation "x <-- m ;; k" := (io_bind m (fun x => k))
  (at level 61, m at next level, right associativity).

(** [self.serial_port.write(data)] *)
Definition serial_write (data_ : list byte) (p : serial_port)
    : write_reply * serial_port :=
  match write_replies p with
  | r :: rs => (r, mkPort rs (read_replies p) (log p ++ [Written data_]))
  | [] => (Accepted (Some (Py.len data_)),
           mkPort [] (read_replies p) (log p ++ [Written data_]))
  end.

(** [self.serial_port.read(bytes)]: at most [bytes] bytes. *)
Definition serial_read (bytes : Z) (p : serial_port)
    : read_reply * serial_port :=
  match read_replies p with
  | Arrived buffer :: rs =>
      (Arrived (firstn (Z.to_nat bytes) buffer),
       mkPort (write_replies p) rs (log p ++ [ReadCalled bytes]))
  | ReadFault msg :: rs =>
      (ReadFault msg,
       mkPort (write_replies p) rs (log p ++ [ReadCalled bytes]))
  | [] => (Arrived [],
           mkPort (write_replies p) [] (log p ++ [ReadCalled bytes]))
  end.

(** [time.sleep(self.command_delay)] *)
Definition sleep : io unit :=
  fun p => (Return tt,
            mkPort (write_replies p) (read_replies p) (log p ++ [Slept])).

(** [AuroraInverter.write] *)
Definition write (data_ : list byte) : io unit :=
  fun p =>
    let '(r, p') := serial_write data_ p in
    match r with
    | WriteFault msg => (Raise (WeeWxIOError msg), p')
    | Accepted N =>
        match N with
        | Some n =>
            if negb (n =? Py.len data_)
            then (Raise (WeeWxIOError
                           ("Expected to write " ++ Py.fmt_d (Py.len data_)
                            ++ " chars; sent " ++ Py.fmt_d n
                            ++ " instead")%string), p')
            else (Return tt, p')
        | None => (Return tt, p')
        end
    end.

(** [AuroraInverter.read]: the [SerialException] of the port is raised
    again as it is. *)
Definition read (bytes : Z) : io (list byte) :=
  fun p =>
    let '(r, p') := serial_read bytes p in
    match r with
    | ReadFault msg => (Raise (SerialException msg), p')
    | Arrived _buffer =>
        let N := Py.len _buffer in
        if negb (N =? bytes)
        then (Raise (WeeWxIOError
                       ("Expected to read " ++ Py.fmt_d bytes
                        ++ " bytes; got " ++ Py.fmt_d N
                        ++ " instead")%string), p')
        else (Return _buffer, p')
    end.

(** [AuroraInverter.read_with_crc] *)
Definition read_with_crc (bytes : Z) : io (list byte) :=
  _response <-- read bytes ;;
  lift (strip_crc16 _response).

(** ** The exchange *)

(** The one fact about the imported [weewx] package that the module's
    [except weewx.WeeWxIOError] clause depends on: whether [weewx.CRCError]
    is declared as a subclass of [weewx.WeeWxIOError]. *)
Record weewx_package : Type := mkWeewx {
  CRCError_is_a_WeeWxIOError : bool
}.

(** The package as weewx ships it: [class CRCError(WeeWxIOError)]. *)
Definition weewx_released : weewx_package := mkWeewx true.

Definition unable : string :=
  "Unable to send or receive data to/from the inverter"%string.

(** [struct.Struct('4B').pack(b0, b1, b2, b3)] *)
Definition pack_4B (b0 b1 b2 b3 : Z) : result (list byte) :=
  c0 <- Py.pack_B b0 ;;
  c1 <- Py.pack_B b1 ;;
  c2 <- Py.pack_B b2 ;;
  c3 <- Py.pack_B b3 ;;
  Return [c0; c1; c2; c3].

Section Exchange.

Variable weewx : weewx_package.

(** [isinstance(e, weewx.WeeWxIOError)], what [except weewx.WeeWxIOError]
    tests. *)
Definition is_WeeWxIOError (e : exn) : bool :=
  match e with
  | WeeWxIOError _ => true
  | CRCError _ => CRCError_is_a_WeeWxIOError weewx
  | _ => false
  end.

(** The body of the [try] in [send_cmd_with_crc]. *)
Definition attempt (reading : string) (_data_with_crc : list byte)
    : io (option ResponseTuple) :=
  _ <-- write _data_with_crc ;;
  _ <-- sleep ;;
  _resp <-- read_with_crc 8 ;;
  c <-- lift (commands_get reading) ;;
  lift (decode (fn c) _resp).

(** [for count in xrange(max_tries)] with the [raise] that follows it. *)
Fixpoint tries (counts : list Z) (reading : string)
    (_data_with_crc : list byte) : io (option ResponseTuple) :=
  match counts with
  | [] => lift (Raise (WeeWxIOError unable))
  | count :: counts' =>
      fun p =>
        match attempt reading _data_with_crc p with
        | (Return r, p') => (Return r, p')
        | (Raise e, p') =>
            if is_WeeWxIOError e
            then tries counts' reading _data_with_crc p'
            else (Raise e, p')
        end
  end.

(** [AuroraInverter.send_cmd_with_crc] *)
Definition send_cmd_with_crc (reading : string)
    (globall address max_tries : Z) : io (option ResponseTuple) :=
  c <-- lift (commands_get reading) ;;
  let cmd_num := cmd c in
  c <-- lift (commands_get reading) ;;
  let sub_cmd := sub c in
  _b <-- lift (pack_4B address cmd_num sub_cmd globall) ;;
  _b_padded <-- lift (pad _b 8) ;;
  crc <-- lift (word2struct (crc16 _b_padded)) ;;
  let _data_with_crc := _b_padded ++ crc in
  tries (Py.range max_tries) reading _data_with_crc.

End Exchange.

(** The calls of [serial_port.write] among the events. *)
Fixpoint writes (l : list event) : list (list byte) :=
  match l with
  | [] => []
  | Written d :: l' => d :: writes l'
  | _ :: l' => writes l'
  end.

(** ** The driver *)

(** How a method of [AuroraDriver] ends: it returns, it raises one of the
    exceptions of the inverter class, or it raises the [AttributeError] of
    an attribute looked up on [None]. *)
Inductive outcome (A : Type) : Type :=
| Returned (a : A)
| Raised (e : exn)
| AttributeError.

Arguments Returned {A} a.
Arguments Raised {A} e.
Arguments AttributeError {A}.

(** A dictionary with string keys, as the list of its items. *)
Definition dict (V : Type) : Type := list (string * V).

(** [d[k] = v] *)
Fixpoint setitem {V : Type} (d : dict V) (k : string) (v : V) : dict V :=
  match d with
  | [] => [(k, v)]
  | (k', v') :: d' =>
      if String.eqb k' k then (k', v) :: d' else (k', v') :: setitem d' k v
  end.

(** [d.get(k)] *)
Fixpoint dict_get {V : Type} (d : dict V) (k : string) : option V :=
  match d with
  | [] => None
  | (k', v) :: d' => if String.eqb k' k then Some v else dict_get d' k
  end.

(** [k in d] *)
Definition contains {V : Type} (d : dict V) (k : string) : bool :=
  match dict_get d k with
  | Some _ => true
  | None => false
  end.

(** The attributes [AuroraDriver.__init__] sets from the configuration,
    with [last_energy], [field_map] and [manifest]. *)
Record AuroraDriver : Type := mkDriver {
  model : string;
  port : string;
  max_tries : Z;
  polling_interval : Z;
  address : Z;
  use_inverter_time : bool;
  last_energy : option Z;
  field_map : dict string;
  manifest : list string
}.

(** [reading in self.inverter.commands] *)
Definition in_commands (reading : string) : bool :=
  match lookup commands reading with
  | Some _ => true
  | None => false
  end.

Section Driver.

Variable weewx : weewx_package.

(** [AuroraDriver.do_cmd]: [send_cmd_with_crc] is called with [reading]
    and [globall] only, so its [address] and [max_tries] are the defaults
    of its signature, 2 and 3. *)
Definition do_cmd (self : AuroraDriver) (reading : string) (globall : Z)
    : io (option ResponseTuple) :=
  send_cmd_with_crc weewx reading globall 2 3.

(** [self.do_cmd(reading, globall).data]: what [do_cmd] returns is a
    response tuple or, for the decoder stub, [None]. *)
Definition do_cmd_data (self : AuroraDriver) (reading : string) (globall : Z)
    (p : serial_port) : outcome (option value) * serial_port :=
  match do_cmd self reading globall p with
  | (Return (Some r), p') => (Returned (data r), p')
  | (Return None, p') => (AttributeError, p')
  | (Raise e, p') => (Raised e, p')
  end.

(** [AuroraDriver.getTime] *)
Definition getTime (self : AuroraDriver) (p : serial_port)
    : outcome (option value) * serial_port :=
  do_cmd_data self "timeDate" 0 p.

(** [AuroraDriver.get_last_alarms] *)
Definition get_last_alarms (self : AuroraDriver) (p : serial_port)
    : outcome (option value) * serial_port :=
  do_cmd_data self "lastAlarms" 0 p.

(** [for key, reading in items: d[key] = self.do_cmd(reading).data], the
    loop of [get_raw_packet] and of [get_cumulated_energy]. *)
Fixpoint read_all (self : AuroraDriver) (items : list (string * string))
    (d : dict (option value)) (p : serial_port)
    : outcome (dict (option value)) * serial_port :=
  match items with
  | [] => (Returned d, p)
  | (key, reading) :: items' =>
      match do_cmd_data self reading 0 p with
      | (Returned v, p') => read_all self items' (setitem d key v) p'
      | (Raised e, p') => (Raised e, p')
      | (AttributeError, p') => (AttributeError, p')
      end
  end.

(** [AuroraDriver.get_raw_packet] *)
Definition get_raw_packet (self : AuroraDriver) (p : serial_port)
    : outcome (dict (option value)) * serial_port :=
  let _packet := [] in
  read_all self (map (fun reading => (reading, reading)) (manifest self))
    _packet p.

(** The dictionary [MANIFEST] of [get_cumulated_energy]. *)
Definition MANIFEST : dict string :=
  [ ("day", "dayEnergy"); ("week", "weekEnergy"); ("month", "monthEnergy");
    ("year", "yearEnergy"); ("total", "totalEnergy");
    ("partial", "partialEnergy") ]%string.

(** [AuroraDriver.get_cumulated_energy]; [iteritems] is
    [MANIFEST.iteritems()], the items of [MANIFEST] in the order the
    dictionary yields them.  The result is the dictionary or [None]. *)
Definition get_cumulated_energy (self : AuroraDriver)
    (iteritems : list (string * string)) (period : option string)
    (p : serial_port)
    : outcome (option (dict (option value))) * serial_port :=
  let _energy := [] in
  match period with
  | None =>
      match read_all self iteritems _energy p with
      | (Returned _energy, p') => (Returned (Some _energy), p')
      | (Raised e, p') => (Raised e, p')
      | (AttributeError, p') => (AttributeError, p')
      end
  | Some period =>
      if contains MANIFEST period
      then
        match do_cmd_data self period 0 p with
        | (Returned v, p') => (Returned (Some (setitem _energy period v)), p')
        | (Raised e, p') => (Raised e, p')
        | (AttributeError, p') => (AttributeError, p')
        end
      else (Returned None, p)
  end.

End Driver.

(** [AuroraDriver.calculate_energy], on the integers and [None] that the
    [dayEnergy] reading gives. *)
Definition calculate_energy (newtotal oldtotal : option Z) : option Z :=
  match newtotal, oldtotal with
  | Some n, Some o => if n >=? o then Some (n - o) else None
  | _, _ => None
  end.

(** The loop of [_build_map_manifest] over the items of the configured
    field map. *)
Fixpoint _build_map_manifest_loop (items : list (string * string))
    (_field_map : dict string) (_manifest : list string)
    : dict string * list string :=
  match items with
  | [] => (_field_map, _manifest)
  | (dest, src) :: items' =>
      if in_commands src
      then _build_map_manifest_loop items' (setitem _field_map dest src)
             (_manifest ++ [src])
      else _build_map_manifest_loop items' _field_map _manifest
  end.

(** [AuroraDriver._build_map_manifest]; [FieldMap] is
    [inverter_dict.get('FieldMap')]: [None] when the configuration has no
    such section, else its items (destination, source) in the order
    [iteritems] yields them. *)
Definition _build_map_manifest (FieldMap : option (list (string * string)))
    : outcome (dict string * list string) :=
  let _manifest := [] in
  let _field_map := [] in
  match FieldMap with
  | None => AttributeError
  | Some items => Returned (_build_map_manifest_loop items _field_map _manifest)
  end.

(** ** Utility functions *)

(** The hexadecimal digit of [n], for [n] in 0..15, in upper case. *)
Definition hex_digit (n : Z) : ascii :=
  nth (Z.to_nat n)
    (list_ascii_of_string "0123456789ABCDEF") "0"%char.

(** ['%02X' % n], for the character codes 0..255. *)
Definition fmt_02X (n : Z) : string :=
  String (hex_digit (n / 16)) (String (hex_digit (n mod 16)) EmptyString).

(** [sep.join(l)] *)
Fixpoint join (sep : string) (l : list string) : string :=
  match l with
  | [] => EmptyString
  | [s] => s
  | s :: l' => (s ++ sep ++ join sep l')%string
  end.

(** [format_byte_to_hex] *)
Definition format_byte_to_hex (bytes : list byte) : string :=
  join " " (map (fun b => fmt_02X (Py.ord b)) bytes).

(** ** The checksum as the specification words it *)

Module Reference.

Definition seed : Z := 0xFFFF.
Definition polynomial : Z := 0x8408.

Definition lsb (x : Z) : bool := Z.testbit x 0.

(** One of the eight rounds on (register, byte). *)
Definition round (s : Z * Z) : Z * Z :=
  let '(register, b) := s in
  (if xorb (lsb register) (lsb b)
   then Z.lxor (Z.shiftr register 1) polynomial
   else Z.shiftr register 1,
   Z.shiftr b 1).

Definition feed (register : Z) (b : byte) : Z :=
  fst (Nat.iter 8 round (register, Py.ord b)).

(** Complement of the register, masked to 16 bits. *)
Definition crc16 (bytes : list byte) : Z :=
  Z.lnot (fold_left feed bytes seed) mod 2 ^ 16.

End Reference.

(** ** Notions the proofs use *)

(** A value that fits the sixteen bit register. *)
Definition word (x : Z) : Prop := 0 <= x < 2 ^ 16.

(** The register shift with feedback, on the register and the byte folded
    together: a round acts on [Z.lxor register byte] as [shift] does. *)
Definition shift (x : Z) : Z :=
  Z.lxor (Z.shiftr x 1) (if Z.testbit x 0 then POLY else 0).

Definition folded (s : Z * Z) : Z := Z.lxor (fst s) (snd s).

(** Bit [j] of the byte [b] inverted. *)
Definition flip_bit (b : byte) (j : Z) : byte :=
  Py.chr (Z.lxor (Py.ord b) (2 ^ j)).

(** Bit [j] of the byte at index [i] inverted. *)
Fixpoint flip (F : list byte) (i : nat) (j : Z) : list byte :=
  match F, i with
  | [], _ => []
  | b :: F', O => flip_bit b j :: F'
  | b :: F', S i' => b :: flip F' i' j
  end.

(** The eight bytes of a command. *)
Definition frame (address : Z) (c : command) (globall : Z) : list byte :=
  [Py.chr address; Py.chr (cmd c); Py.chr (sub c); Py.chr globall;
   x00; x00; x00; x00].

(** The frame followed by its checksum, low byte first. *)
Definition wire (address : Z) (c : command) (globall : Z) : list byte :=
  frame address c globall
  ++ [Py.chr (Z.land (crc16 (frame address c globall)) 0xff);
      Py.chr (crc16 (frame address c globall) / 256)].

(** The port after [k] attempts in a row that each raised an exception the
    [except weewx.WeeWxIOError] clause catches; [None] when one of them
    ended otherwise. *)
Fixpoint after_failures (weewx : weewx_package) (k : nat) (reading : string)
    (d : list byte) (p : serial_port) : option serial_port :=
  match k with
  | O => Some p
  | S k' =>
      match attempt reading d p with
      | (Raise e, p') =>
          if is_WeeWxIOError weewx e then after_failures weewx k' reading d p'
          else None
      | (Return _, _) => None
      end
  end.

(** Both codes of a registry entry fit a byte. *)
Definition byte_codes (e : string * command) : bool :=
  (0 <=? cmd (snd e)) && (cmd (snd e) <=? 255)
  && (0 <=? sub (snd e)) && (sub (snd e) <=? 255).

(** ** Sample ports *)

(** A response to [dayEnergy] with its checksum, and the same with the
    checksum bytes zeroed. *)
Definition response_ok : list byte := [x00; x06; x00; x00; x01; x00; xcf; xd5].
Definition response_bad : list byte := [x00; x06; x00; x00; x01; x00; x00; x00].

(** A port on which nothing ever arrives. *)
Definition silent_port : serial_port := mkPort [] [] [].

(** A port whose first response is damaged and whose second is sound. *)
Definition noisy_port : serial_port :=
  mkPort [] [Arrived response_bad; Arrived response_ok] [].

(** A port whose first read comes short and whose second is sound. *)
Definition slow_port : serial_port :=
  mkPort [] [Arrived [x00]; Arrived response_ok] [].

(** [f] holds of [start], [start + 1], ..., [fuel] numbers in all. *)
Fixpoint all_upto (f : Z -> bool) (fuel : nat) (start : Z) : bool :=
  match fuel with
  | O => true
  | S fuel' => f start && all_upto f fuel' (start + 1)
  end.

(** The register after the two checksum bytes of the register [s] are fed
    to it. *)
Definition fed_own_checksum (s : Z) : Z :=
  let c := 65535 - s in
  Reference.feed (Reference.feed s (Py.chr (Z.land c 0xff))) (Py.chr (c / 256)).

(** An ASCII decimal digit. *)
Definition is_digit (b : byte) : bool :=
  (48 <=? Py.ord b) && (Py.ord b <=? 57).

(** The events of one attempt: the write alone when it failed, else the
    write, the sleep and the read. *)
Definition attempt_events (d : list byte) (block : list event) : Prop :=
  block = [Written d] \/ block = [Written d; Slept; ReadCalled 8].

(** A driver configured with address 7 and five tries. *)
Definition sample_driver : AuroraDriver :=
  mkDriver "Aurora" "/dev/ttyUSB0" 5 10 7 false None [] [].

(** A port that answers six times with a sound response. *)
Definition six_answers : serial_port :=
  mkPort [] (repeat (Arrived response_ok) 6) [].

(** The [energy] fields of successive loop packets whose [dayEnergy]
    fields are [readings]: [genLoopPackets] computes each one with
    [calculate_energy] from the reading and [self.last_energy], and then
    keeps the reading as [self.last_energy]. *)
Fixpoint energies (last_energy : option Z) (readings : list (option Z))
    : list (option Z) :=
  match readings with
  | [] => []
  | reading :: readings' =>
      calculate_energy reading last_energy :: energies reading readings'
  end.

(** The sum of the energies that are not [None]. *)
Fixpoint total (l : list (option Z)) : Z :=
  match l with
  | [] => 0
  | Some delta :: l' => delta + total l'
  | None :: l' => total l'
  end.

(** Cumulative readings that never go down, from [first] on. *)
Fixpoint nondecreasing (first : Z) (l : list Z) : Prop :=
  match l with
  | [] => True
  | next :: l' => first <= next /\ nondecreasing next l'
  end.

(** The entries of a configured field map whose source is a reading of
    the registry. *)
Definition valid_entries (items : list (string * string))
    : list (string * string) :=
  filter (fun item => in_commands (snd item)) items.


(** The events of [n] complete attempts with the frame [d]. *)
Definition exchanges (d : list byte) (n : nat) : list event :=
  List.concat (repeat [Written d; Slept; ReadCalled 8] n).

(** What a decode function makes of a checked payload, by its shape: the
    stub gives [None]; [_dec_ascii] a tuple with data and no states;
    every other one a tuple with both states and data. *)
Definition decoded (fn : decoder) (r : option ResponseTuple) : Prop :=
  match fn with
  | dec_state => r = None
  | dec_ascii =>
      exists s, r = Some (mkResponseTuple None None (Some (DStr s)))
  | _ =>
      exists t g v, r = Some (mkResponseTuple (Some t) (Some g) (Some v))
  end.

(** * Properties *)

(** ** Sixteen bit registers *)

Lemma testbit_high (n x m : Z) :
  0 <= x < 2 ^ n -> 0 <= n <= m -> Z.testbit x m = false.
Proof.
  intros Hx Hm.
  rewrite <- (Z.mod_small x (2 ^ n)) by exact Hx.
  apply Z.mod_pow2_bits_high; lia.
Qed.

Lemma below_pow2 (n x : Z) :
  0 <= n -> 0 <= x -> (forall m, n <= m -> Z.testbit x m = false) ->
  x < 2 ^ n.
Proof.
  intros Hn Hx Hhigh.
  assert (E : x = x mod 2 ^ n).
  { apply Z.bits_inj'; intros m Hm.
    destruct (Z.lt_ge_cases m n) as [Hlt | Hge].
    - now rewrite Z.mod_pow2_bits_low.
    - rewrite Z.mod_pow2_bits_high by lia. now apply Hhigh. }
  rewrite E. apply Z.mod_pos_bound. lia.
Qed.

Lemma lxor_word (a b : Z) : word a -> word b -> word (Z.lxor a b).
Proof.
  unfold word; intros Ha Hb; split.
  - apply Z.lxor_nonneg; lia.
  - apply below_pow2; [lia | apply Z.lxor_nonneg; lia |].
    intros m Hm. rewrite Z.lxor_spec.
    rewrite (testbit_high 16 a m), (testbit_high 16 b m) by lia.
    reflexivity.
Qed.

Lemma shiftr_word (a : Z) : word a -> word (Z.shiftr a 1).
Proof.
  unfold word; intros Ha.
  rewrite Z.shiftr_div_pow2 by lia. change (2 ^ 1) with 2.
  split; [apply Z.div_pos; lia | apply Z.div_lt_upper_bound; lia].
Qed.

Lemma land_mask (x : Z) : word x -> Z.land x 0xffff = x.
Proof.
  intros Hx. change 0xffff with (Z.ones 16).
  rewrite Z.land_ones by lia. now apply Z.mod_small.
Qed.

Lemma land_1 (x : Z) : Z.land x 0x0001 = Z.b2z (Z.testbit x 0).
Proof.
  change 0x0001 with (Z.ones 1). rewrite Z.land_ones by lia.
  now rewrite Z.bit0_mod.
Qed.

Lemma complement_mask (x : Z) : word x -> Z.land (Z.lnot x) 0xffff = 65535 - x.
Proof.
  unfold word; intros Hx.
  pose proof (Z.land_ones (Z.lnot x) 16) as E.
  change (Z.ones 16) with 0xffff in E. rewrite E by lia.
  change (2 ^ 16) with 65536 in *. unfold Z.lnot.
  replace (Z.pred (- x)) with (65535 - x + (-1) * 65536) by lia.
  rewrite Z.mod_add by lia. apply Z.mod_small; lia.
Qed.

Lemma POLY_word : word POLY.
Proof. unfold word, POLY; lia. Qed.

(** ** The loop body is the round of the specification *)

Lemma crc16_bit_round (crc b i : Z) :
  word crc -> crc16_bit (crc, b) i = Reference.round (crc, b).
Proof.
  intros Hc. unfold crc16_bit, Reference.round, Reference.lsb.
  rewrite !land_1.
  destruct (Z.testbit crc 0), (Z.testbit b 0); cbn [Z.b2z xorb];
    try reflexivity.
  all: change (Z.lxor _ _ =? 0) with false; cbv iota.
  all: rewrite land_mask; [reflexivity |].
  all: apply lxor_word; [now apply shiftr_word | exact POLY_word].
Qed.

Lemma round_word (crc b : Z) :
  word crc -> word (fst (Reference.round (crc, b))).
Proof.
  intros Hc. unfold Reference.round. cbn [fst].
  destruct (xorb _ _).
  - apply lxor_word; [now apply shiftr_word | exact POLY_word].
  - now apply shiftr_word.
Qed.

Lemma rounds_word (n : nat) (crc b : Z) :
  word crc -> word (fst (Nat.iter n Reference.round (crc, b))).
Proof.
  intros Hc. induction n as [| n IH]; [exact Hc |].
  rewrite Nat.iter_succ.
  destruct (Nat.iter n Reference.round (crc, b)) as [c' b'].
  now apply round_word.
Qed.

Lemma fold_bits_rounds (l : list Z) (crc b : Z) :
  word crc ->
  fold_left crc16_bit l (crc, b)
  = Nat.iter (List.length l) Reference.round (crc, b).
Proof.
  intros Hc. induction l as [| i l IH] using rev_ind; [reflexivity |].
  rewrite fold_left_app, length_app, Nat.add_comm.
  cbn [fold_left List.length Nat.add]. rewrite Nat.iter_succ, IH. pose proof (rounds_word (List.length l) crc b Hc) as Hw.
  destruct (Nat.iter (List.length l) Reference.round (crc, b)) as [c' b'].
  now apply crc16_bit_round.
Qed.

Lemma crc16_byte_feed (crc : Z) (b : byte) :
  word crc -> crc16_byte crc b = Reference.feed crc b.
Proof.
  intros Hc. unfold crc16_byte, Reference.feed.
  now rewrite fold_bits_rounds.
Qed.

Lemma feed_word (crc : Z) (b : byte) : word crc -> word (Reference.feed crc b).
Proof. intros Hc. now apply rounds_word. Qed.

Lemma fold_feed_word (buf : list byte) (crc : Z) :
  word crc -> word (fold_left Reference.feed buf crc).
Proof.
  revert crc. induction buf as [| b buf IH]; intros crc Hc; [exact Hc |].
  cbn [fold_left]. apply IH. now apply feed_word.
Qed.

Lemma fold_crc16_byte_feed (buf : list byte) (crc : Z) :
  word crc ->
  fold_left crc16_byte buf crc = fold_left Reference.feed buf crc.
Proof.
  revert crc. induction buf as [| b buf IH]; intros crc Hc; [reflexivity |].
  cbn [fold_left]. rewrite crc16_byte_feed by exact Hc.
  apply IH. now apply feed_word.
Qed.

Lemma seed_word : word 0xffff.
Proof. unfold word; lia. Qed.

(** [crc16] without its special case and without its masks. *)
Lemma crc16_closed_form (buf : list byte) :
  crc16 buf = 65535 - fold_left Reference.feed buf 0xffff.
Proof.
  unfold crc16. destruct buf as [| b buf]; [reflexivity |].
  change (Py.len (b :: buf) =? 0) with (Z.pos (Pos.of_succ_nat (List.length buf)) =? 0).
  cbv iota beta zeta.
  rewrite fold_crc16_byte_feed by exact seed_word.
  apply complement_mask. apply fold_feed_word. exact seed_word.
Qed.

Lemma crc16_word (buf : list byte) : word (crc16 buf).
Proof.
  rewrite crc16_closed_form.
  pose proof (fold_feed_word buf 0xffff seed_word) as H.
  unfold word in *. change (2 ^ 16) with 65536 in *. lia.
Qed.

(** C6: [crc16] computes the reflected CRC-CCITT of the specification (seed
    0xFFFF, polynomial 0x8408, eight rounds a byte on the least significant
    bits, complement masked to 16 bits), and the checksum of the empty input
    is 0x0000. *)
Theorem crc16_refines_reference (buf : list byte) :
  crc16 buf = Reference.crc16 buf /\ crc16 [] = 0x0000.
Proof.
  split; [| reflexivity].
  rewrite crc16_closed_form. unfold Reference.crc16, Reference.seed.
  pose proof (fold_feed_word buf 0xffff seed_word) as H.
  rewrite <- complement_mask by exact H.
  change 0xffff with (Z.ones 16) at 2. now rewrite Z.land_ones by lia.
Qed.

(** ** A changed byte changes the checksum *)

Lemma round_folded (s : Z * Z) :
  folded (Reference.round s) = shift (folded s).
Proof.
  destruct s as [c b]. unfold folded, shift, Reference.round, Reference.lsb.
  cbn [fst snd]. rewrite Z.lxor_spec, Z.shiftr_lxor.
  fold POLY. change Reference.polynomial with POLY.
  destruct (xorb (Z.testbit c 0) (Z.testbit b 0)).
  - rewrite !Z.lxor_assoc. f_equal. apply Z.lxor_comm.
  - now rewrite Z.lxor_0_r.
Qed.

Lemma shift_word (x : Z) : word x -> word (shift x).
Proof.
  intros Hx. unfold shift. apply lxor_word; [now apply shiftr_word |].
  destruct (Z.testbit x 0); [exact POLY_word | unfold word; lia].
Qed.

Lemma shift_inj (x y : Z) : word x -> word y -> shift x = shift y -> x = y.
Proof.
  intros Hx Hy E.
  assert (T : Z.testbit x 0 = Z.testbit y 0).
  { apply (f_equal (fun z => Z.testbit z 15)) in E. unfold shift in E.
    rewrite !Z.lxor_spec, !Z.shiftr_spec in E by lia.
    rewrite (testbit_high 16 x), (testbit_high 16 y) in E by (unfold word in *; lia).
    destruct (Z.testbit x 0), (Z.testbit y 0); trivial; discriminate E. }
  assert (S : Z.shiftr x 1 = Z.shiftr y 1).
  { unfold shift in E. rewrite T in E.
    apply (f_equal (fun z => Z.lxor z (if Z.testbit y 0 then POLY else 0))) in E.
    now rewrite !Z.lxor_assoc, !Z.lxor_nilpotent, !Z.lxor_0_r in E. }
  rewrite !Z.shiftr_div_pow2 in S by lia. change (2 ^ 1) with 2 in S.
  apply (f_equal Z.b2z) in T. rewrite !Z.bit0_mod in T.
  rewrite (Z.div_mod x 2), (Z.div_mod y 2) by lia. now rewrite S, T.
Qed.

Lemma shifts_word (n : nat) (x : Z) : word x -> word (Nat.iter n shift x).
Proof.
  intros Hx. induction n as [| n IH]; [exact Hx |].
  rewrite Nat.iter_succ. now apply shift_word.
Qed.

Lemma shifts_inj (n : nat) (x y : Z) :
  word x -> word y -> Nat.iter n shift x = Nat.iter n shift y -> x = y.
Proof.
  intros Hx Hy. induction n as [| n IH]; [trivial |].
  rewrite !Nat.iter_succ. intros E. apply IH.
  apply shift_inj; [now apply shifts_word | now apply shifts_word | exact E].
Qed.

Lemma rounds_folded (n : nat) (s : Z * Z) :
  folded (Nat.iter n Reference.round s) = Nat.iter n shift (folded s).
Proof.
  induction n as [| n IH]; [reflexivity |].
  now rewrite !Nat.iter_succ, round_folded, IH.
Qed.

Lemma rounds_snd (n : nat) (c b : Z) :
  snd (Nat.iter n Reference.round (c, b)) = Z.shiftr b (Z.of_nat n).
Proof.
  induction n as [| n IH]; [now rewrite Z.shiftr_0_r |].
  rewrite Nat.iter_succ.
  destruct (Nat.iter n Reference.round (c, b)) as [c' b'].
  cbn [snd] in *. subst b'. unfold Reference.round. cbn [snd].
  rewrite Z.shiftr_shiftr by lia. f_equal. lia.
Qed.

Lemma ord_range (b : byte) : 0 <= Py.ord b < 256.
Proof.
  unfold Py.ord. pose proof (Byte.to_N_bounded b). lia.
Qed.

Lemma ord_inj (a b : byte) : Py.ord a = Py.ord b -> a = b.
Proof.
  unfold Py.ord. intros E. apply N2Z.inj in E.
  apply (f_equal Byte.of_N) in E. rewrite !Byte.of_to_N in E. congruence.
Qed.

Lemma ord_word (b : byte) : word (Py.ord b).
Proof. pose proof (ord_range b). unfold word. lia. Qed.

(** Feeding a byte is eight shifts of the register with the byte folded
    in. *)
Lemma feed_shifts (crc : Z) (b : byte) :
  Reference.feed crc b = Nat.iter 8 shift (Z.lxor crc (Py.ord b)).
Proof.
  unfold Reference.feed.
  change (Z.lxor crc (Py.ord b)) with (folded (crc, Py.ord b)).
  rewrite <- rounds_folded. unfold folded at 1.
  rewrite rounds_snd.
  rewrite (Z.shiftr_eq_0 (Py.ord b)).
  - now rewrite Z.lxor_0_r.
  - apply ord_range.
  - pose proof (ord_range b) as Hb.
    destruct (Z.eq_dec (Py.ord b) 0) as [E | NE]; [rewrite E; cbn; lia |].
    apply Z.log2_lt_pow2; [lia |]. cbn. lia.
Qed.

Lemma feed_inj (c1 c2 : Z) (b1 b2 : byte) :
  word c1 -> word c2 ->
  Reference.feed c1 b1 = Reference.feed c2 b2 ->
  Z.lxor c1 (Py.ord b1) = Z.lxor c2 (Py.ord b2).
Proof.
  intros H1 H2. rewrite !feed_shifts. apply shifts_inj.
  all: apply lxor_word; trivial; apply ord_word.
Qed.

Lemma fold_feed_inj (buf : list byte) (c1 c2 : Z) :
  word c1 -> word c2 ->
  fold_left Reference.feed buf c1 = fold_left Reference.feed buf c2 ->
  c1 = c2.
Proof.
  revert c1 c2. induction buf as [| b buf IH]; intros c1 c2 H1 H2 E; [exact E |].
  cbn [fold_left] in E. apply IH in E; try now apply feed_word.
  apply feed_inj in E; trivial.
  apply (f_equal (fun z => Z.lxor z (Py.ord b))) in E.
  now rewrite !Z.lxor_assoc, !Z.lxor_nilpotent, !Z.lxor_0_r in E.
Qed.

(** Two strings that differ in exactly one place have different checksums. *)
Lemma crc16_one_byte (front back : list byte) (b b' : byte) :
  b <> b' -> crc16 (front ++ b :: back) <> crc16 (front ++ b' :: back).
Proof.
  intros Hb E. rewrite !crc16_closed_form in E.
  assert (E' : fold_left Reference.feed (front ++ b :: back) 0xffff
               = fold_left Reference.feed (front ++ b' :: back) 0xffff) by lia.
  rewrite !fold_left_app in E'. cbn [fold_left] in E'.
  pose proof (fold_feed_word front 0xffff seed_word) as Hw.
  apply fold_feed_inj in E'; try now apply feed_word.
  apply feed_inj in E'; trivial.
  apply (f_equal (Z.lxor (fold_left Reference.feed front 0xffff))) in E'.
  rewrite <- !Z.lxor_assoc, !Z.lxor_nilpotent, !Z.lxor_0_l in E'.
  now apply ord_inj in E'.
Qed.

(** ** Strings, slices and the two checksum bytes *)

Lemma str_eqb_eq (a b : list byte) : Py.str_eqb a b = true <-> a = b.
Proof.
  revert b. induction a as [| x a IH]; intros [| y b]; cbn [Py.str_eqb];
    try (split; [discriminate | discriminate]); [tauto |].
  rewrite andb_true_iff, IH. split.
  - intros [E ->]. now rewrite (Byte.byte_dec_bl _ _ E).
  - intros [= -> ->]. split; [now apply Byte.byte_dec_lb | reflexivity].
Qed.

Lemma str_eqb_neq (a b : list byte) : a <> b -> Py.str_eqb a b = false.
Proof.
  intros H. destruct (Py.str_eqb a b) eqn:E; [| reflexivity].
  now apply str_eqb_eq in E.
Qed.

Lemma slice_front {A : Type} (l t : list A) :
  List.length t = 2%nat -> Py.slice None (Some (-2)) (l ++ t) = l.
Proof.
  intros Ht. unfold Py.slice, Py.clip, Py.len. rewrite length_app, Ht.
  cbn [skipn]. change (-2 <? 0) with true. cbv iota.
  replace (Z.to_nat _ - 0)%nat with (List.length l) by lia.
  rewrite firstn_app, firstn_all, Nat.sub_diag. cbn [firstn].
  apply app_nil_r.
Qed.

Lemma slice_back {A : Type} (l t : list A) :
  List.length t = 2%nat -> Py.slice (Some (-2)) None (l ++ t) = t.
Proof.
  intros Ht. unfold Py.slice, Py.clip, Py.len. rewrite length_app, Ht.
  change (-2 <? 0) with true. cbv iota.
  replace (Z.to_nat _) with (List.length l) by lia.
  rewrite skipn_app, skipn_all, Nat.sub_diag. cbn [skipn app].
  replace (List.length l + 2 - List.length l)%nat with (List.length t) by lia.
  apply firstn_all.
Qed.

Lemma ord_chr (x : Z) : 0 <= x <= 255 -> Py.ord (Py.chr x) = x.
Proof.
  intros Hx. unfold Py.ord, Py.chr.
  destruct (Byte.of_N (Z.to_N x)) as [b |] eqn:E.
  - apply Byte.to_of_N in E. rewrite E. lia.
  - apply Byte.of_N_None_iff in E. lia.
Qed.

Lemma chr_inj (x y : Z) :
  0 <= x <= 255 -> 0 <= y <= 255 -> Py.chr x = Py.chr y -> x = y.
Proof.
  intros Hx Hy E. apply (f_equal Py.ord) in E. now rewrite !ord_chr in E.
Qed.

Lemma low_byte (i : Z) : Z.land i 0xff = i mod 256.
Proof. exact (Z.land_ones i 8 ltac:(lia)). Qed.

Lemma low_byte_range (i : Z) : 0 <= Z.land i 0xff <= 255.
Proof. rewrite low_byte. pose proof (Z.mod_pos_bound i 256). lia. Qed.

Lemma high_byte_range (i : Z) : word i -> 0 <= i / 256 <= 255.
Proof.
  unfold word. change (2 ^ 16) with 65536. intros Hi. split.
  - apply Z.div_pos; lia.
  - apply Z.lt_succ_r. apply Z.div_lt_upper_bound; lia.
Qed.

Lemma pack_B_range (x : Z) : 0 <= x <= 255 -> Py.pack_B x = Return (Py.chr x).
Proof.
  intros Hx. unfold Py.pack_B.
  now replace ((0 <=? x) && (x <=? 255)) with true by lia.
Qed.

Lemma word2struct_word (i : Z) :
  word i -> word2struct i = Return [Py.chr (Z.land i 0xff); Py.chr (i / 256)].
Proof.
  intros Hi. unfold word2struct.
  rewrite (pack_B_range _ (low_byte_range i)).
  now rewrite (pack_B_range _ (high_byte_range i Hi)).
Qed.

Lemma word2struct_inj (i j : Z) :
  word i -> word j -> word2struct i = word2struct j -> i = j.
Proof.
  intros Hi Hj. rewrite !word2struct_word by assumption. intros [= Elo Ehi].
  apply chr_inj in Elo; try apply low_byte_range.
  apply chr_inj in Ehi; try now apply high_byte_range.
  rewrite !low_byte in Elo.
  rewrite (Z.div_mod i 256), (Z.div_mod j 256) by lia. now rewrite Elo, Ehi.
Qed.

Lemma strip_crc16_match (payload t : list byte) :
  word2struct (crc16 payload) = Return t ->
  strip_crc16 (payload ++ t) = Return payload.
Proof.
  intros Ht.
  assert (Hlen : List.length t = 2%nat).
  { rewrite word2struct_word in Ht by apply crc16_word. now injection Ht as <-. }
  unfold strip_crc16. rewrite slice_front, slice_back by exact Hlen.
  rewrite Ht. cbn [bind].
  now rewrite (proj2 (str_eqb_eq t t) eq_refl).
Qed.

Lemma strip_crc16_mismatch (payload t : list byte) :
  List.length t = 2%nat ->
  word2struct (crc16 payload) <> Return t ->
  strip_crc16 (payload ++ t) = Raise (CRCError crc_failed).
Proof.
  intros Hlen Ht. unfold strip_crc16.
  rewrite slice_front, slice_back by exact Hlen.
  rewrite word2struct_word in * by apply crc16_word. cbn [bind].
  rewrite str_eqb_neq; [reflexivity | congruence].
Qed.

(** C1: for every byte string [P], the two bytes [word2struct (crc16 P)]
    exist, and [strip_crc16] of [P] followed by them returns exactly [P],
    no [CRCError] raised. *)
Theorem strip_crc16_round_trip (P : list byte) :
  exists t, word2struct (crc16 P) = Return t
            /\ strip_crc16 (P ++ t) = Return P.
Proof.
  eexists. split; [apply word2struct_word, crc16_word |].
  apply strip_crc16_match. apply word2struct_word, crc16_word.
Qed.

(** ** Flipping one bit of a frame *)

Lemma flip_bit_changes (b : byte) (j : Z) : 0 <= j < 8 -> flip_bit b j <> b.
Proof.
  intros Hj E. apply (f_equal Py.ord) in E. unfold flip_bit in E.
  pose proof (ord_range b) as Hb.
  assert (Hp : 0 < 2 ^ j < 2 ^ 8)
    by (split; [apply Z.pow_pos_nonneg | apply Z.pow_lt_mono_r]; lia).
  assert (Hx : 0 <= Z.lxor (Py.ord b) (2 ^ j) < 2 ^ 8).
  { split; [apply Z.lxor_nonneg; lia |].
    apply below_pow2; [lia | apply Z.lxor_nonneg; lia |].
    intros m Hm. rewrite Z.lxor_spec.
    rewrite (testbit_high 8 (Py.ord b) m), (testbit_high 8 (2 ^ j) m);
      [reflexivity | | | |]; change (2 ^ 8) with 256 in *; lia. }
  rewrite ord_chr in E by (change (2 ^ 8) with 256 in Hx; lia).
  apply (f_equal (Z.lxor (Py.ord b))) in E.
  rewrite <- Z.lxor_assoc, Z.lxor_nilpotent, Z.lxor_0_l in E. lia.
Qed.

Lemma flip_length (F : list byte) (i : nat) (j : Z) :
  List.length (flip F i j) = List.length F.
Proof.
  revert i. induction F as [| b F IH]; intros [| i]; cbn; auto.
Qed.

Lemma flip_split (F : list byte) (i : nat) (j : Z) :
  (i < List.length F)%nat ->
  exists front b back,
    F = front ++ b :: back /\ flip F i j = front ++ flip_bit b j :: back.
Proof.
  revert i. induction F as [| b F IH]; intros i Hi; [cbn in Hi; lia |].
  destruct i as [| i].
  - now exists [], b, F.
  - cbn in Hi. destruct (IH i) as (front & c & back & -> & E); [lia |].
    exists (b :: front), c, back. cbn [flip app]. now rewrite E.
Qed.

Lemma flip_app (P t : list byte) (i : nat) (j : Z) :
  flip (P ++ t) i j
  = if (i <? List.length P)%nat then flip P i j ++ t
    else P ++ flip t (i - List.length P) j.
Proof.
  revert i. induction P as [| b P IH]; intros i.
  - cbn [app List.length]. now rewrite Nat.sub_0_r.
  - destruct i as [| i]; [reflexivity |].
    cbn [app flip List.length]. rewrite IH.
    change (S i <? S (List.length P))%nat with (i <? List.length P)%nat.
    cbn [Nat.sub]. now destruct (i <? List.length P)%nat.
Qed.

(** C7: in the frame [P ++ t] with [t] the checksum bytes of [P], inverting
    any one bit ([j] of the byte at index [i]) makes [strip_crc16] raise
    [CRCError]. *)
Theorem single_bit_error_detected (P t : list byte) (i : nat) (j : Z) :
  word2struct (crc16 P) = Return t ->
  (i < List.length (P ++ t))%nat -> 0 <= j < 8 ->
  strip_crc16 (flip (P ++ t) i j) = Raise (CRCError crc_failed).
Proof.
  intros Ht Hi Hj.
  assert (Hlen : List.length t = 2%nat).
  { rewrite word2struct_word in Ht by apply crc16_word. now injection Ht as <-. }
  rewrite flip_app. destruct (Nat.ltb_spec i (List.length P)) as [Hin | Hout].
  - destruct (flip_split P i j Hin) as (front & b & back & -> & ->).
    apply strip_crc16_mismatch; [exact Hlen |].
    rewrite <- Ht. intros E.
    apply word2struct_inj in E; try apply crc16_word.
    revert E. apply crc16_one_byte. now apply flip_bit_changes.
  - apply strip_crc16_mismatch; [now rewrite flip_length |].
    rewrite Ht. intros [= E].
    rewrite length_app in Hi.
    destruct (flip_split t (i - List.length P) j) as (front & b & back & -> & E');
      [lia |].
    rewrite E' in E. apply app_inv_head in E. injection E as E.
    symmetry in E. revert E. now apply flip_bit_changes.
Qed.

(** ** Padding *)

Lemma len_PAD (size : Z) :
  Py.len (map (fun a : Z => x00) (Py.range size)) = Z.max 0 size.
Proof.
  unfold Py.len, Py.range. rewrite !length_map, length_seq. lia.
Qed.

(** C10: [pad] never raises [DataFormatError], whatever the string and the
    size: its guard compares [size] with the length of a pad string of
    [size] characters.  The result is never shorter than [buf], so for a
    [buf] longer than [size] it is longer than [size]. *)
Theorem pad_never_raises (buf : list byte) (size : Z) :
  exists s, pad buf size = Return s
            /\ Py.len buf <= Py.len s
            /\ (size < Py.len buf -> size < Py.len s).
Proof.
  unfold pad. rewrite len_PAD.
  replace (size >? Z.max 0 size) with false by lia.
  eexists. split; [reflexivity |].
  assert (H : Py.len buf <= Py.len (buf ++ Py.slice None (Some (size - Py.len buf))
                                     (map (fun a : Z => x00) (Py.range size)))).
  { unfold Py.len at 2. rewrite length_app. unfold Py.len. lia. }
  split; [exact H | lia].
Qed.

(** ** The timestamp *)

(** C9: on a six byte payload [_dec_ts] returns byte 0 as transmission
    state, byte 1 as global state, and as data the big endian integer of
    bytes 2 to 5 plus 946648800. *)
Theorem _dec_ts_six_bytes (b0 b1 b2 b3 b4 b5 : byte) :
  _dec_ts [b0; b1; b2; b3; b4; b5]
  = Return (mkResponseTuple
              (Some (Py.ord b0)) (Some (Py.ord b1))
              (Some (DInt (Py.ord b2 * 2 ^ 24 + Py.ord b3 * 2 ^ 16
                           + Py.ord b4 * 2 ^ 8 + Py.ord b5 + 946648800)))).
Proof. reflexivity. Qed.

(** C5: for a reading that is not a key of [commands] the call raises
    [KeyError] at once and leaves the port as it was: nothing written,
    nothing read, no retry. *)
Theorem unknown_reading_fails_at_once (weewx : weewx_package)
    (reading : string) (globall address max_tries : Z) (p : serial_port) :
  lookup commands reading = None ->
  send_cmd_with_crc weewx reading globall address max_tries p
  = (Raise (KeyError reading), p).
Proof.
  intros H. unfold send_cmd_with_crc, io_bind, lift, commands_get.
  now rewrite H.
Qed.

Lemma unknown_reading_fails_at_once_witness :
  lookup commands "noSuchReading" = None
  /\ send_cmd_with_crc weewx_released "noSuchReading" 0 2 3 (mkPort [] [] [])
     = (Raise (KeyError "noSuchReading"), mkPort [] [] []).
Proof.
  split; [reflexivity |].
  apply (unknown_reading_fails_at_once weewx_released "noSuchReading" 0 2 3).
  reflexivity.
Defined.

(** ** The frame on the wire *)

Lemma lookup_In (d : list (string * command)) (key : string) (c : command) :
  lookup d key = Some c -> In (key, c) d.
Proof.
  induction d as [| [k c'] d IH]; cbn [lookup]; [discriminate |].
  destruct (String.eqb_spec k key) as [-> | _].
  - intros [= ->]. now left.
  - intros H. right. now apply IH.
Qed.

Lemma commands_in_range (reading : string) (c : command) :
  lookup commands reading = Some c ->
  0 <= cmd c <= 255 /\ 0 <= sub c <= 255.
Proof.
  intros H. apply lookup_In in H.
  assert (A : forallb byte_codes commands = true) by reflexivity.
  rewrite forallb_forall in A. apply A in H. unfold byte_codes in H.
  cbn [snd] in H. lia.
Qed.

Lemma send_cmd_with_crc_tries (weewx : weewx_package) (reading : string)
    (c : command) (globall address max_tries : Z) (p : serial_port) :
  lookup commands reading = Some c ->
  0 <= address <= 255 -> 0 <= globall <= 255 ->
  send_cmd_with_crc weewx reading globall address max_tries p
  = tries weewx (Py.range max_tries) reading (wire address c globall) p.
Proof.
  intros Hc Ha Hg. destruct (commands_in_range _ _ Hc) as [Hcmd Hsub].
  unfold send_cmd_with_crc, io_bind, lift, commands_get. rewrite Hc.
  unfold pack_4B. rewrite !pack_B_range by assumption. cbn [bind].
  change (pad _ 8) with (Return (frame address c globall)). cbv iota.
  rewrite word2struct_word by apply crc16_word. reflexivity.
Qed.

Lemma writes_app (a b : list event) : writes (a ++ b) = writes a ++ writes b.
Proof.
  induction a as [| e a IH]; [reflexivity |].
  destruct e; cbn [app writes]; now rewrite IH.
Qed.

Lemma write_log (d : list byte) (p : serial_port) :
  log (snd (write d p)) = log p ++ [Written d].
Proof.
  unfold write, serial_write.
  destruct (write_replies p) as [| [[n |] | msg] ws];
    repeat match goal with
      | |- context [if ?b then _ else _] => destruct b
      end; reflexivity.
Qed.

Lemma read_with_crc_log (bytes : Z) (p : serial_port) :
  log (snd (read_with_crc bytes p)) = log p ++ [ReadCalled bytes].
Proof.
  unfold read_with_crc, io_bind, read, serial_read, lift.
  destruct (read_replies p) as [| [buffer | msg] rs];
    repeat match goal with
      | |- context [if ?b then _ else _] => destruct b
      end; reflexivity.
Qed.

(** An attempt calls [serial_port.write] once, with the bytes it was
    given. *)
Lemma attempt_writes (reading : string) (d : list byte) (p : serial_port) :
  writes (log (snd (attempt reading d p))) = writes (log p) ++ [d].
Proof.
  unfold attempt, io_bind. pose proof (write_log d p) as Hw.
  destruct (write d p) as [[[] | e] p1]; cbn [snd] in Hw.
  2: { cbn [snd]. rewrite Hw, writes_app. reflexivity. }
  unfold sleep. pose proof (read_with_crc_log 8 (mkPort (write_replies p1)
    (read_replies p1) (log p1 ++ [Slept]))) as Hr.
  destruct (read_with_crc 8 _) as [[_resp | e] p2]; cbn [snd log] in Hr.
  2: { cbn [snd]. rewrite Hr, Hw, !writes_app. cbn [writes].
       now rewrite !app_nil_r. }
  unfold lift.
  assert (E : writes (log p2) = writes (log p) ++ [d]).
  { rewrite Hr, Hw, !writes_app. cbn [writes]. now rewrite !app_nil_r. }
  destruct (commands_get reading) as [c | e]; [| exact E].
  destruct (decode (fn c) _resp); exact E.
Qed.

Lemma range_length (n : Z) : List.length (Py.range n) = Z.to_nat n.
Proof. unfold Py.range. now rewrite length_map, length_seq. Qed.

(** When every attempt fails the loop runs out: the final [raise], after as
    many writes as there were counts. *)
Lemma tries_all_fail (weewx : weewx_package) (counts : list Z)
    (reading : string) (d : list byte) (p p' : serial_port) :
  after_failures weewx (List.length counts) reading d p = Some p' ->
  tries weewx counts reading d p = (Raise (WeeWxIOError unable), p')
  /\ writes (log p') = writes (log p) ++ repeat d (List.length counts).
Proof.
  revert p. induction counts as [| count counts IH]; intros p H.
  - injection H as <-. split; [reflexivity |]. cbn. now rewrite app_nil_r.
  - cbn [List.length after_failures] in H. cbn [tries].
    pose proof (attempt_writes reading d p) as Hw.
    destruct (attempt reading d p) as [[r | e] p1]; [discriminate |].
    destruct (is_WeeWxIOError weewx e); [| discriminate].
    destruct (IH p1 H) as [E W]. split; [exact E |].
    cbn [snd] in Hw. rewrite W, Hw, <- app_assoc. reflexivity.
Qed.

(** When attempt [S k] is the first that does not fail, its result is the
    result of the call, after [S k] writes. *)
Lemma tries_first_success (weewx : weewx_package) (counts : list Z)
    (reading : string) (d : list byte) (k : nat) (p p1 p2 : serial_port)
    (r : option ResponseTuple) :
  (k < List.length counts)%nat ->
  after_failures weewx k reading d p = Some p1 ->
  attempt reading d p1 = (Return r, p2) ->
  tries weewx counts reading d p = (Return r, p2)
  /\ writes (log p2) = writes (log p) ++ repeat d (S k).
Proof.
  revert k p. induction counts as [| count counts IH]; intros k p Hk Hf Ha.
  - cbn in Hk. lia.
  - cbn [tries]. destruct k as [| k].
    + injection Hf as <-. pose proof (attempt_writes reading d p) as Hw.
      rewrite Ha in *. split; [reflexivity | exact Hw].
    + cbn [after_failures] in Hf.
      pose proof (attempt_writes reading d p) as Hw.
      destruct (attempt reading d p) as [[r' | e] p']; [discriminate |].
      destruct (is_WeeWxIOError weewx e); [| discriminate].
      cbn [List.length] in Hk.
      destruct (IH k p' ltac:(lia) Hf Ha) as [E W]. split; [exact E |].
      cbn [snd] in Hw. rewrite W, Hw, <- app_assoc. reflexivity.
Qed.

Lemma tries_writes (weewx : weewx_package) (counts : list Z)
    (reading : string) (d : list byte) (p : serial_port) :
  exists k, (k <= List.length counts)%nat
            /\ (counts <> [] -> (1 <= k)%nat)
            /\ writes (log (snd (tries weewx counts reading d p)))
               = writes (log p) ++ repeat d k.
Proof.
  revert p. induction counts as [| count counts IH]; intros p.
  - exists 0%nat. cbn. rewrite app_nil_r. repeat split; [lia | congruence].
  - cbn [tries]. pose proof (attempt_writes reading d p) as Hw.
    destruct (attempt reading d p) as [[r | e] p1]; cbn [snd] in *.
    + exists 1%nat. cbn [List.length repeat]. repeat split; [lia | lia | exact Hw].
    + destruct (is_WeeWxIOError weewx e).
      * destruct (IH p1) as (k & Hk & _ & W). exists (S k).
        cbn [List.length]. repeat split; [lia | lia |].
        rewrite W, Hw, <- app_assoc. reflexivity.
      * exists 1%nat. cbn [List.length repeat snd].
        repeat split; [lia | lia | exact Hw].
Qed.

(** C8: for a reading of the registry and an address and a global flag in
    0..255, whatever the call writes to the port it writes as the same ten
    bytes: address, command code, sub-command code, global flag, four
    zeros, then the CRC of these eight bytes, low byte first; and a call
    with [max_tries] > 0 writes them at least once. *)
Theorem written_frame (weewx : weewx_package) (reading : string)
    (c : command) (globall address max_tries : Z) (p : serial_port) :
  lookup commands reading = Some c ->
  0 <= address <= 255 -> 0 <= globall <= 255 ->
  let eight := [Py.chr address; Py.chr (cmd c); Py.chr (sub c);
                Py.chr globall; x00; x00; x00; x00] in
  let ten := eight ++ [Py.chr (crc16 eight mod 256);
                       Py.chr (crc16 eight / 256)] in
  List.length ten = 10%nat
  /\ map Py.ord eight = [address; cmd c; sub c; globall; 0; 0; 0; 0]
  /\ exists k, (k <= Z.to_nat max_tries)%nat
               /\ (0 < max_tries -> (1 <= k)%nat)
               /\ writes (log (snd (send_cmd_with_crc weewx reading globall
                                      address max_tries p)))
                  = writes (log p) ++ repeat ten k.
Proof.
  intros Hc Ha Hg eight ten.
  destruct (commands_in_range _ _ Hc) as [Hcmd Hsub].
  split; [reflexivity |]. split.
  { subst eight. cbn [map]. now rewrite !ord_chr by assumption. }
  rewrite (send_cmd_with_crc_tries weewx reading c) by assumption.
  destruct (tries_writes weewx (Py.range max_tries) reading
              (wire address c globall) p) as (k & Hk & Hpos & W).
  exists k. rewrite range_length in Hk. split; [exact Hk |]. split.
  - intros Hn. apply Hpos. intros E. apply (f_equal (@List.length Z)) in E.
    rewrite range_length in E. cbn in E. lia.
  - rewrite W. unfold wire, frame. now rewrite low_byte.
Qed.

(** ** Checksum failures in the retry loop *)

Lemma range_pos (n : Z) : 0 < n -> Py.range n = 0 :: tl (Py.range n).
Proof.
  intros Hn. unfold Py.range.
  destruct (Z.to_nat n) as [| k] eqn:E; [lia | reflexivity].
Qed.


(** Under a package in which [CRCError] did not derive from [WeeWxIOError]
    the checksum failure of the first attempt would reach the caller at
    once. *)
Lemma crc_failure_propagates_unless_subclass (weewx : weewx_package)
    (reading : string) (c : command) (globall address max_tries : Z)
    (p p1 : serial_port) (m : string) :
  CRCError_is_a_WeeWxIOError weewx = false ->
  lookup commands reading = Some c ->
  0 <= address <= 255 -> 0 <= globall <= 255 -> 0 < max_tries ->
  attempt reading (wire address c globall) p = (Raise (CRCError m), p1) ->
  send_cmd_with_crc weewx reading globall address max_tries p
  = (Raise (CRCError m), p1).
Proof.
  intros Hsub Hc Ha Hg Hn Hat.
  rewrite (send_cmd_with_crc_tries weewx reading c) by assumption.
  rewrite range_pos by exact Hn. cbn [tries]. rewrite Hat. cbn.
  now rewrite Hsub.
Qed.


(** C3: the decoders do not always degrade to the all-absent tuple:
    [_dec_float] lets [struct.error] through on a five byte payload,
    [_dec_week_year] lets [ValueError] through on bytes that are no digits,
    and [_dec_ascii] returns the short string itself. *)
Theorem decoders_raise_on_bad_payloads :
  _dec_float [x00; x00; x3f; x80; x00] = Raise StructError
  /\ _dec_week_year [x00; x00; x61; x62; x31; x37] = Raise ValueError
  /\ _dec_ascii [x41; x42]
     = Return (mkResponseTuple None None (Some (DStr [x41; x42]))).
Proof. split; [| split]; vm_compute; reflexivity. Qed.

(** The integer and the timestamp decoders do degrade on a short payload. *)
Lemma short_payload_absent (v : list byte) :
  (List.length v < 6)%nat ->
  _dec_int v = Return all_None /\ _dec_ts v = Return all_None.
Proof.
  intros H.
  do 6 (destruct v as [| ? v]; [split; reflexivity |]).
  cbn in H. lia.
Qed.

Lemma single_bit_error_detected_witness :
  (word2struct (crc16 [x02; x3b]) = Return [xa7; xb3]
   /\ (1 < List.length ([x02; x3b] ++ [xa7; xb3]))%nat /\ 0 <= 3 < 8)
  /\ strip_crc16 (flip ([x02; x3b] ++ [xa7; xb3]) 1 3)
     = Raise (CRCError crc_failed).
Proof.
  split; [split; [vm_compute; reflexivity | split; [cbn; lia | lia]] |].
  apply (single_bit_error_detected [x02; x3b] [xa7; xb3] 1 3);
    [vm_compute; reflexivity | cbn; lia | lia].
Defined.

Lemma written_frame_witness :
  (lookup commands "gridV" = Some (mkCommand 59 1 dec_float)
   /\ 0 <= 2 <= 255 /\ 0 <= 0 <= 255)
  /\ writes (log (snd (send_cmd_with_crc weewx_released "gridV" 0 2 1
                         silent_port)))
     = [[x02; x3b; x01; x00; x00; x00; x00; x00; xff; x2c]].
Proof.
  split; [split; [reflexivity | lia] |].
  destruct (written_frame weewx_released "gridV" (mkCommand 59 1 dec_float)
              0 2 1 silent_port eq_refl ltac:(lia) ltac:(lia))
    as (_ & _ & k & Hk & Hpos & W).
  rewrite W. assert (k = 1%nat) as -> by (specialize (Hpos ltac:(lia)); lia).
  vm_compute; reflexivity.
Defined.

(** ** More on the checksum *)

Lemma slice_split {A : Type} (l : list A) :
  Py.slice None (Some (-2)) l ++ Py.slice (Some (-2)) None l = l.
Proof.
  unfold Py.slice. cbn [skipn]. rewrite Nat.sub_0_r.
  rewrite (firstn_all2 (n := List.length l - _)) by (rewrite length_skipn; lia).
  apply firstn_skipn.
Qed.

Lemma slice_back_length {A : Type} (l : list A) :
  List.length (Py.slice (Some (-2)) None l) = Nat.min 2 (List.length l).
Proof.
  unfold Py.slice, Py.clip, Py.len. change (-2 <? 0) with true. cbv iota.
  rewrite firstn_all2 by (rewrite length_skipn; lia).
  rewrite length_skipn. lia.
Qed.

(** X1: [strip_crc16] either returns the buffer without its last two bytes,
    and then these are the checksum of what it returns, or raises
    [CRCError]; it raises nothing else. *)
Theorem strip_crc16_sound (buffer : list byte) :
  (exists payload t,
      buffer = payload ++ t
      /\ word2struct (crc16 payload) = Return t
      /\ strip_crc16 buffer = Return payload)
  \/ strip_crc16 buffer = Raise (CRCError crc_failed).
Proof.
  unfold strip_crc16.
  rewrite word2struct_word by apply crc16_word. cbn [bind].
  destruct (Py.str_eqb _ _) eqn:E; [left | now right].
  apply str_eqb_eq in E.
  exists (Py.slice None (Some (-2)) buffer), (Py.slice (Some (-2)) None buffer).
  split; [symmetry; apply slice_split |]. split; [| reflexivity].
  rewrite word2struct_word by apply crc16_word. now rewrite E.
Qed.

(** X2: a buffer of fewer than two bytes never passes the check. *)
Theorem strip_crc16_short (buffer : list byte) :
  (List.length buffer < 2)%nat ->
  strip_crc16 buffer = Raise (CRCError crc_failed).
Proof.
  intros H. unfold strip_crc16.
  rewrite word2struct_word by apply crc16_word. cbn [bind].
  rewrite str_eqb_neq; [reflexivity |].
  intros E. apply (f_equal (@List.length byte)) in E.
  rewrite slice_back_length in E. cbn [List.length] in E. lia.
Qed.

Lemma strip_crc16_short_witness :
  (List.length [x41] < 2)%nat
  /\ strip_crc16 [x41] = Raise (CRCError crc_failed).
Proof.
  split; [cbn; lia |]. apply (strip_crc16_short [x41]). cbn; lia.
Defined.

(** X3: [word2struct] packs exactly the words 0..65535, as the two bytes
    [lo], [hi] with [lo + 256 * hi] the word; any other integer is a
    [struct.error]. *)
Theorem word2struct_only_words (i : Z) :
  (0 <= i <= 65535
   /\ exists lo hi, word2struct i = Return [lo; hi]
                    /\ Py.ord lo + 256 * Py.ord hi = i)
  \/ ((i < 0 \/ 65535 < i) /\ word2struct i = Raise StructError).
Proof.
  destruct (Z_lt_le_dec i 0) as [Hneg | Hpos];
    [| destruct (Z_le_gt_dec i 65535) as [Hle | Hgt]].
  - right. split; [now left |]. unfold word2struct.
    rewrite (pack_B_range _ (low_byte_range i)). cbn [bind].
    unfold Py.pack_B.
    assert (i / 256 < 0) by (apply Z.div_lt_upper_bound; lia).
    now replace (0 <=? i / 256) with false by lia.
  - left. split; [lia |].
    assert (Hw : word i) by (unfold word; change (2 ^ 16) with 65536; lia).
    exists (Py.chr (Z.land i 0xff)), (Py.chr (i / 256)).
    split; [now apply word2struct_word |].
    rewrite (ord_chr _ (low_byte_range i)), (ord_chr _ (high_byte_range i Hw)).
    rewrite low_byte. pose proof (Z.div_mod i 256). lia.
  - right. split; [right; lia |]. unfold word2struct.
    rewrite (pack_B_range _ (low_byte_range i)). cbn [bind].
    unfold Py.pack_B.
    assert (256 <= i / 256) by (apply Z.div_le_lower_bound; lia).
    replace (i / 256 <=? 255) with false by lia.
    now rewrite andb_false_r.
Qed.

(** X4: the checksum is a sixteen bit word, so packing it never fails. *)
Theorem crc16_is_word (buf : list byte) :
  0 <= crc16 buf <= 65535
  /\ exists lo hi, word2struct (crc16 buf) = Return [lo; hi].
Proof.
  pose proof (crc16_word buf) as H. split.
  - unfold word in H. change (2 ^ 16) with 65536 in H. lia.
  - rewrite word2struct_word by exact H. eauto.
Qed.

Lemma all_upto_spec (f : Z -> bool) (fuel : nat) (start x : Z) :
  all_upto f fuel start = true ->
  start <= x < start + Z.of_nat fuel -> f x = true.
Proof.
  revert start. induction fuel as [| fuel IH]; intros start A H; [lia |].
  cbn [all_upto] in A. apply andb_true_iff in A. destruct A as [A0 A].
  destruct (Z.eq_dec start x) as [<- | NE]; [exact A0 |].
  apply (IH (start + 1)); [exact A | lia].
Qed.

Lemma fed_own_checksum_constant (s : Z) :
  word s -> fed_own_checksum s = 0xF0B8.
Proof.
  intros H. apply Z.eqb_eq.
  apply (all_upto_spec (fun x => fed_own_checksum x =? 0xF0B8)
           (Z.to_nat 65536) 0 s).
  - vm_compute. reflexivity.
  - rewrite Z2Nat.id by lia. exact H.
Qed.

Lemma fed_own_checksum_eq (s : Z) :
  Reference.feed (Reference.feed s (Py.chr (Z.land (65535 - s) 0xff)))
    (Py.chr ((65535 - s) / 256))
  = fed_own_checksum s.
Proof. cbv delta [fed_own_checksum] beta zeta. reflexivity. Qed.

(** X5: a frame that ends in its own checksum has the checksum 0x0F47,
    whatever the payload. *)
Theorem crc16_residue (P t : list byte) :
  word2struct (crc16 P) = Return t -> crc16 (P ++ t) = 0x0F47.
Proof.
  intros Ht. rewrite word2struct_word in Ht by apply crc16_word.
  injection Ht as <-.
  rewrite (crc16_closed_form (P ++ _)).
  rewrite fold_left_app.
  cbn [fold_left].
  rewrite (crc16_closed_form P).
  rewrite fed_own_checksum_eq.
  rewrite fed_own_checksum_constant.
  - reflexivity.
  - apply fold_feed_word, seed_word.
Qed.

Lemma crc16_residue_witness :
  word2struct (crc16 [x02; x3b]) = Return [xa7; xb3]
  /\ crc16 ([x02; x3b] ++ [xa7; xb3]) = 0x0F47.
Proof.
  split; [vm_compute; reflexivity |].
  apply (crc16_residue [x02; x3b] [xa7; xb3]). vm_compute; reflexivity.
Defined.

(** ** More on padding *)

Lemma firstn_of_repeat {A : Type} (a : A) (k n : nat) :
  firstn k (repeat a n) = repeat a (Nat.min k n).
Proof.
  revert n. induction k as [| k IH]; intros [| n]; cbn; try reflexivity.
  now rewrite IH.
Qed.

Lemma slice_to_repeat {A : Type} (a : A) (n : nat) (stop : Z) :
  Py.slice None (Some stop) (repeat a n)
  = repeat a (Py.clip (Z.of_nat n) stop).
Proof.
  unfold Py.slice, Py.len. cbn [skipn]. rewrite repeat_length, Nat.sub_0_r.
  rewrite firstn_of_repeat. f_equal.
  unfold Py.clip. lia.
Qed.

Lemma PAD_repeat (size : Z) :
  map (fun a : Z => x00) (Py.range size) = repeat x00 (Z.to_nat size).
Proof.
  unfold Py.range. rewrite map_map.
  generalize 0%nat. induction (Z.to_nat size) as [| n IH]; intros s;
    [reflexivity |].
  cbn [seq map repeat]. now rewrite IH.
Qed.

(** X6: what [pad] returns.  A string of at most [size] characters is
    filled with nulls to [size] characters; a longer one gets
    [2 * size - len(buf)] nulls when that is positive and none
    otherwise (the slice [PAD[:size - len(buf)]] then has a negative
    bound, which counts from the end of [PAD]). *)
Theorem pad_result (buf : list byte) (size : Z) :
  pad buf size
  = Return (buf ++ repeat x00
                     (Z.to_nat (if Py.len buf <=? size
                                then size - Py.len buf
                                else 2 * size - Py.len buf)))
  /\ (Py.len buf <= size ->
      exists s, pad buf size = Return s /\ Py.len s = size).
Proof.
  assert (E : pad buf size
              = Return (buf ++ repeat x00
                          (Z.to_nat (if Py.len buf <=? size
                                     then size - Py.len buf
                                     else 2 * size - Py.len buf)))).
  { unfold pad. rewrite len_PAD.
    replace (size >? Z.max 0 size) with false by lia.
    rewrite PAD_repeat, slice_to_repeat. do 3 f_equal.
    unfold Py.clip, Py.len.
    destruct (Z.leb_spec (Z.of_nat (List.length buf)) size);
      destruct (Z.ltb_spec (size - Z.of_nat (List.length buf)) 0); lia. }
  split; [exact E |].
  intros H. eexists. split; [exact E |].
  unfold Py.len in *. rewrite length_app, repeat_length.
  replace (Z.of_nat (List.length buf) <=? size) with true by lia. lia.
Qed.

(** ** More on the decoders *)

Lemma slice_range {A : Type} (a b : nat) (l : list A) :
  (a <= b)%nat ->
  Py.slice (Some (Z.of_nat a)) (Some (Z.of_nat b)) l
  = firstn (b - a) (skipn a l).
Proof.
  intros Hab. unfold Py.slice, Py.clip, Py.len.
  replace (Z.of_nat a <? 0) with false by lia.
  replace (Z.of_nat b <? 0) with false by lia.
  destruct (Nat.le_gt_cases (List.length l) a) as [Hshort | Hlong].
  - rewrite !skipn_all2 by lia. now rewrite !firstn_nil.
  - replace (Z.to_nat (Z.max 0 (Z.min (Z.of_nat (List.length l)) (Z.of_nat a))))
      with a by lia.
    destruct (Nat.le_gt_cases (List.length l) b) as [Hb | Hb].
    + rewrite !firstn_all2 by (rewrite length_skipn; lia). reflexivity.
    + f_equal. lia.
Qed.

Lemma slice_from {A : Type} (a : nat) (l : list A) :
  Py.slice (Some (Z.of_nat a)) None l = skipn a l.
Proof.
  unfold Py.slice, Py.clip, Py.len.
  destruct (Z.ltb_spec (Z.of_nat a) 0) as [Hneg | _]; [lia |].
  destruct (Nat.le_gt_cases (List.length l) a) as [Hshort | Hlong].
  - rewrite !skipn_all2 by lia. now rewrite firstn_nil.
  - replace (Z.to_nat (Z.max 0 (Z.min (Z.of_nat (List.length l)) (Z.of_nat a))))
      with a by lia.
    apply firstn_all2. rewrite length_skipn. lia.
Qed.

(** X7: [_dec_int] and [_dec_ts] never raise.  On fewer than six bytes both
    return the all-absent tuple; on six or more they read the first six:
    the two state bytes and a number below 2^32, to which [_dec_ts] adds
    946648800. *)
Theorem _dec_int_and_ts_by_length (v : list byte) :
  match v with
  | b0 :: b1 :: b2 :: b3 :: b4 :: b5 :: _ =>
      let n := Py.ord b2 * 2 ^ 24 + Py.ord b3 * 2 ^ 16
               + Py.ord b4 * 2 ^ 8 + Py.ord b5 in
      _dec_int v
      = Return (mkResponseTuple (Some (Py.ord b0)) (Some (Py.ord b1))
                  (Some (DInt n)))
      /\ _dec_ts v
         = Return (mkResponseTuple (Some (Py.ord b0)) (Some (Py.ord b1))
                     (Some (DInt (n + 946648800))))
      /\ 0 <= n < 2 ^ 32
  | _ => _dec_int v = Return all_None /\ _dec_ts v = Return all_None
  end.
Proof.
  do 6 (destruct v as [| ? v]; [split; reflexivity |]).
  cbv zeta. split; [reflexivity |]. split; [reflexivity |].
  pose proof (ord_range b1). pose proof (ord_range b2).
  pose proof (ord_range b3). pose proof (ord_range b4).
  change (2 ^ 24) with 16777216. change (2 ^ 16) with 65536.
  change (2 ^ 8) with 256. change (2 ^ 32) with 4294967296. lia.
Qed.

(** X8: [_dec_float] by the length of the payload: the all-absent tuple
    below two bytes; on exactly six bytes byte 0 as transmission state,
    byte 1 as global state and the float whose big endian bit pattern is
    bytes 2 to 5; [struct.error] on every other length. *)
Theorem _dec_float_by_length (v : list byte) :
  match v with
  | [] | [_] => _dec_float v = Return all_None
  | [b0; b1; b2; b3; b4; b5] =>
      _dec_float v
      = Return (mkResponseTuple (Some (Py.ord b0)) (Some (Py.ord b1))
                  (Some (DFloat (Py.ord b2 * 2 ^ 24 + Py.ord b3 * 2 ^ 16
                                 + Py.ord b4 * 2 ^ 8 + Py.ord b5))))
      /\ 0 <= Py.ord b2 * 2 ^ 24 + Py.ord b3 * 2 ^ 16
              + Py.ord b4 * 2 ^ 8 + Py.ord b5 < 2 ^ 32
  | _ => _dec_float v = Raise StructError
  end.
Proof.
  do 2 (destruct v as [| ? v]; [reflexivity |]).
  do 4 (destruct v as [| ? v]; [reflexivity |]).
  destruct v as [| ? v].
  - split; [reflexivity |].
    pose proof (ord_range b1). pose proof (ord_range b2).
    pose proof (ord_range b3). pose proof (ord_range b4).
    change (2 ^ 24) with 16777216. change (2 ^ 16) with 65536.
    change (2 ^ 8) with 256. change (2 ^ 32) with 4294967296. lia.
  - unfold _dec_float, ord_at, Py.index. cbn [nth_error bind].
    rewrite (slice_from 2). reflexivity.
Qed.

Lemma int_one_char (b : byte) :
  int [b] = if is_digit b then Return (Py.ord b - 48) else Raise ValueError.
Proof. destruct b; reflexivity. Qed.

Lemma is_digit_range (b : byte) :
  is_digit b = true -> 48 <= Py.ord b <= 57.
Proof. unfold is_digit. lia. Qed.

Lemma int_two_digits (b c : byte) :
  is_digit b = true -> is_digit c = true ->
  int [b; c] = Return (10 * (Py.ord b - 48) + (Py.ord c - 48)).
Proof.
  intros Hb Hc. apply is_digit_range in Hb, Hc.
  assert (Sb : isspace b = false) by (unfold isspace; lia).
  assert (Sc : isspace c = false) by (unfold isspace; lia).
  unfold int. cbn [lstrip]. rewrite Sb. cbn [rev app lstrip]. rewrite Sc.
  cbn [rev app].
  replace (Py.ord b =? 43) with false by lia.
  replace (Py.ord b =? 45) with false by lia.
  cbn [digits].
  replace ((48 <=? Py.ord b) && (Py.ord b <=? 57)) with true by lia.
  replace ((48 <=? Py.ord c) && (Py.ord c <=? 57)) with true by lia.
  f_equal. lia.
Qed.

(** X9: on a payload whose bytes 2 to 5 are ASCII decimal digits
    [_dec_week_year] returns the two state bytes and the pair (week, year)
    of the two digit numbers. *)
Theorem _dec_week_year_digits (b0 b1 w1 w0 y1 y0 : byte) (rest : list byte) :
  is_digit w1 = true -> is_digit w0 = true ->
  is_digit y1 = true -> is_digit y0 = true ->
  _dec_week_year (b0 :: b1 :: w1 :: w0 :: y1 :: y0 :: rest)
  = Return (mkResponseTuple (Some (Py.ord b0)) (Some (Py.ord b1))
              (Some (DTuple [10 * (Py.ord w1 - 48) + (Py.ord w0 - 48);
                             10 * (Py.ord y1 - 48) + (Py.ord y0 - 48)]))).
Proof.
  intros Hw1 Hw0 Hy1 Hy0. unfold _dec_week_year, ord_at, Py.index.
  cbn [nth_error bind].
  rewrite (slice_range 2 4), (slice_range 4 6) by lia.
  cbn [Nat.sub skipn firstn].
  rewrite !int_two_digits by assumption. reflexivity.
Qed.

Lemma _dec_week_year_digits_witness :
  (is_digit x30 = true /\ is_digit x35 = true
   /\ is_digit x31 = true /\ is_digit x37 = true)
  /\ _dec_week_year [x00; x06; x30; x35; x31; x37]
     = Return (mkResponseTuple (Some 0) (Some 6) (Some (DTuple [5; 17]))).
Proof.
  split; [repeat split |].
  exact (_dec_week_year_digits x00 x06 x30 x35 x31 x37 []
           eq_refl eq_refl eq_refl eq_refl).
Defined.

(** X10: [_dec_alarms] reads each of the bytes 2 to 5 with [int]: on a six
    byte payload it returns the four numbers when all four bytes are ASCII
    decimal digits and lets [ValueError] through when one is not. *)
Theorem _dec_alarms_six_bytes (b0 b1 a1 a2 a3 a4 : byte) :
  _dec_alarms [b0; b1; a1; a2; a3; a4]
  = if is_digit a1 && is_digit a2 && is_digit a3 && is_digit a4
    then Return (mkResponseTuple (Some (Py.ord b0)) (Some (Py.ord b1))
                   (Some (DTuple [Py.ord a1 - 48; Py.ord a2 - 48;
                                  Py.ord a3 - 48; Py.ord a4 - 48])))
    else Raise ValueError.
Proof.
  unfold _dec_alarms.
  change (Py.slice (Some 2) (Some 6) [b0; b1; a1; a2; a3; a4])
    with [a1; a2; a3; a4].
  cbn [for_each]. rewrite !int_one_char.
  destruct (is_digit a1); [| reflexivity].
  destruct (is_digit a2); [| reflexivity].
  destruct (is_digit a3); [| reflexivity].
  destruct (is_digit a4); reflexivity.
Qed.

(** X11: the two string decoders never raise and never look past what they
    slice: [_dec_ascii] returns the first six bytes or fewer as they are,
    with no state; [_dec_ascii_and_state] returns the all-absent tuple
    below two bytes and otherwise the two state bytes with bytes 2 and 3
    (or fewer), whatever follows. *)
Theorem ascii_decoders (v : list byte) :
  _dec_ascii v = Return (mkResponseTuple None None (Some (DStr (firstn 6 v))))
  /\ _dec_ascii_and_state v
     = match v with
       | b0 :: b1 :: rest =>
           Return (mkResponseTuple (Some (Py.ord b0)) (Some (Py.ord b1))
                     (Some (DStr (firstn 2 rest))))
       | _ => Return all_None
       end.
Proof.
  split.
  - unfold _dec_ascii. now rewrite (slice_range 0 6) by lia.
  - do 2 (destruct v as [| ? v]; [reflexivity |]).
    unfold _dec_ascii_and_state, ord_at, Py.index. cbn [nth_error bind].
    now rewrite (slice_range 2 4) by lia.
Qed.

(** ** The transport *)

(** X12: [write] makes one call of [serial_port.write], with the data it
    was given, and does nothing else on the port.  When that call raises
    a [SerialException], [write] raises a [WeeWxIOError] with its
    message; when it returns a count that is not [len(data)], [write]
    raises the [WeeWxIOError] that names both numbers; when it returns
    [len(data)] or [None], [write] returns. *)
Theorem write_outcome (data_ : list byte) (p : serial_port) :
  snd (write data_ p) = snd (serial_write data_ p)
  /\ log (snd (write data_ p)) = log p ++ [Written data_]
  /\ read_replies (snd (write data_ p)) = read_replies p
  /\ fst (write data_ p)
     = match fst (serial_write data_ p) with
       | WriteFault msg => Raise (WeeWxIOError msg)
       | Accepted None => Return tt
       | Accepted (Some n) =>
           if n =? Py.len data_ then Return tt
           else Raise (WeeWxIOError
                         ("Expected to write " ++ Py.fmt_d (Py.len data_)
                          ++ " chars; sent " ++ Py.fmt_d n
                          ++ " instead")%string)
       end.
Proof.
  unfold write, serial_write.
  destruct (write_replies p) as [| [[n |] | msg] ws]; cbn [fst snd].
  2: destruct (n =? Py.len data_).
  all: try rewrite Z.eqb_refl; cbn [negb fst snd log read_replies];
    repeat split.
Qed.

(** X13: [read] makes one call of [serial_port.read].  When that call
    raises a [SerialException], [read] raises the same exception, not a
    [WeeWxIOError]; when it returns a string that has not [bytes] bytes,
    [read] raises the [WeeWxIOError] that names both numbers; when it
    returns [bytes] bytes, [read] returns them. *)
Theorem read_outcome (bytes : Z) (p : serial_port) :
  snd (read bytes p) = snd (serial_read bytes p)
  /\ log (snd (read bytes p)) = log p ++ [ReadCalled bytes]
  /\ fst (read bytes p)
     = match fst (serial_read bytes p) with
       | ReadFault msg => Raise (SerialException msg)
       | Arrived _buffer =>
           if Py.len _buffer =? bytes then Return _buffer
           else Raise (WeeWxIOError
                         ("Expected to read " ++ Py.fmt_d bytes
                          ++ " bytes; got " ++ Py.fmt_d (Py.len _buffer)
                          ++ " instead")%string)
       end.
Proof.
  unfold read, serial_read.
  destruct (read_replies p) as [| [buffer | msg] rs]; cbn [fst snd].
  - destruct (Py.len [] =? bytes); cbn [negb fst snd log]; repeat split.
  - destruct (Py.len (firstn (Z.to_nat bytes) buffer) =? bytes);
      cbn [negb fst snd log]; repeat split.
  - cbn [log]. repeat split.
Qed.

Lemma strip_crc16_returns (buffer payload : list byte) :
  strip_crc16 buffer = Return payload ->
  exists t, buffer = payload ++ t /\ List.length t = 2%nat
            /\ word2struct (crc16 payload) = Return t.
Proof.
  unfold strip_crc16. rewrite word2struct_word by apply crc16_word.
  cbn [bind]. destruct (Py.str_eqb _ _) eqn:E; [| discriminate].
  intros [= <-]. apply str_eqb_eq in E.
  exists (Py.slice (Some (-2)) None buffer).
  split; [symmetry; apply slice_split |].
  rewrite word2struct_word by apply crc16_word. rewrite <- E. now split.
Qed.

(** A successful [read_with_crc 8] took the first answer of the port, and
    its first eight bytes are a checked six byte payload. *)
Lemma read_with_crc_8_returns (p p' : serial_port) (payload : list byte) :
  read_with_crc 8 p = (Return payload, p') ->
  exists buffer rs t,
    read_replies p = Arrived buffer :: rs
    /\ firstn 8 buffer = payload ++ t
    /\ List.length payload = 6%nat
    /\ word2struct (crc16 payload) = Return t
    /\ read_replies p' = rs.
Proof.
  unfold read_with_crc, io_bind, read, serial_read, lift.
  destruct (read_replies p) as [| [buffer | msg] rs]; [discriminate | | discriminate].
  change (Z.to_nat 8) with 8%nat.
  destruct (negb (Py.len (firstn 8 buffer) =? 8)) eqn:E; [discriminate |].
  apply negb_false_iff, Z.eqb_eq in E.
  destruct (strip_crc16 (firstn 8 buffer)) as [d | e] eqn:S; [| discriminate].
  intros [= -> <-]. cbn [read_replies].
  destruct (strip_crc16_returns _ _ S) as (t & Hb & Ht & Hw).
  exists buffer, rs, t. repeat split; trivial.
  apply (f_equal (@List.length byte)) in Hb. rewrite length_app in Hb.
  unfold Py.len in E. lia.
Qed.

Lemma write_keeps_replies (d : list byte) (p : serial_port) :
  read_replies (snd (write d p)) = read_replies p.
Proof.
  unfold write, serial_write.
  destruct (write_replies p) as [| [[n |] | msg] ws];
    repeat match goal with
      | |- context [if ?b then _ else _] => destruct b
      end; reflexivity.
Qed.

Lemma read_length (bytes : Z) (p : serial_port) (_buffer : list byte) :
  fst (read bytes p) = Return _buffer -> Py.len _buffer = bytes.
Proof.
  unfold read, serial_read.
  destruct (read_replies p) as [| [buffer | msg] rs]; cbn [fst];
    try discriminate.
  - destruct (negb (Py.len [] =? bytes)) eqn:E; cbn [fst]; [discriminate |].
    intros [= <-]. now apply negb_false_iff, Z.eqb_eq in E.
  - destruct (negb (Py.len (firstn (Z.to_nat bytes) buffer) =? bytes)) eqn:E;
      cbn [fst]; [discriminate |].
    intros [= <-]. now apply negb_false_iff, Z.eqb_eq in E.
Qed.

(** X14: when [read_with_crc] returns, it returns all but the last two of
    the [bytes] bytes read, and the last two were the checksum of what it
    returns. *)
Theorem read_with_crc_returns (bytes : Z) (p p' : serial_port)
    (payload : list byte) :
  read_with_crc bytes p = (Return payload, p') ->
  Py.len payload = bytes - 2
  /\ exists t, word2struct (crc16 payload) = Return t
               /\ fst (read bytes p) = Return (payload ++ t).
Proof.
  unfold read_with_crc, io_bind, lift.
  pose proof (read_length bytes p) as L.
  destruct (read bytes p) as [[buf | e] p1]; [| discriminate].
  specialize (L buf eq_refl).
  destruct (strip_crc16 buf) as [d | e] eqn:S; [| discriminate].
  intros [= -> <-].
  destruct (strip_crc16_returns _ _ S) as (t & -> & Ht & Hw).
  split.
  - unfold Py.len in *. rewrite length_app in L. lia.
  - exists t. now split.
Qed.

Lemma read_with_crc_returns_witness :
  read_with_crc 8 (mkPort [] [Arrived response_ok] [])
  = (Return [x00; x06; x00; x00; x01; x00],
     mkPort [] [] [ReadCalled 8])
  /\ Py.len [x00; x06; x00; x00; x01; x00] = 8 - 2.
Proof.
  assert (E : read_with_crc 8 (mkPort [] [Arrived response_ok] [])
              = (Return [x00; x06; x00; x00; x01; x00],
                 mkPort [] [] [ReadCalled 8]))
    by (vm_compute; reflexivity).
  split; [exact E |].
  exact (proj1 (read_with_crc_returns 8 _ _ _ E)).
Defined.

(** ** What the decoders raise *)

Lemma ord_at_raises (v : list byte) (i : nat) (e : exn) :
  ord_at v i = Raise e -> e = IndexError.
Proof.
  unfold ord_at, Py.index. destruct (nth_error v i); cbn [bind]; congruence.
Qed.

Lemma unpack_f_raises (s : list byte) (e : exn) :
  unpack_f s = Raise e -> e = StructError.
Proof.
  destruct s as [| b3 [| b2 [| b1 [| b0 [| b s]]]]]; cbn [unpack_f];
    congruence.
Qed.

Lemma int_raises (s : list byte) (e : exn) : int s = Raise e -> e = ValueError.
Proof.
  unfold int.
  destruct (match rev (lstrip (rev (lstrip s))) with
            | [] => (1, [])
            | b :: s' =>
                if Py.ord b =? 43 then (1, s')
                else if Py.ord b =? 45 then (-1, s')
                else (1, rev (lstrip (rev (lstrip s))))
            end) as [sign body].
  destruct body as [| b body]; [congruence |].
  destruct (digits 0 (b :: body)); congruence.
Qed.

Lemma for_each_raises {A B : Type} (f : A -> result B) (l : list A)
    (P : exn -> Prop) :
  (forall a e, f a = Raise e -> P e) ->
  forall e, for_each f l = Raise e -> P e.
Proof.
  intros Hf. induction l as [| a l IH]; intros e; cbn [for_each];
    [discriminate |].
  destruct (f a) as [b | e'] eqn:E; cbn [bind].
  - destruct (for_each f l) as [bs | e'']; cbn [bind]; [discriminate |].
    intros [= <-]. now apply IH.
  - intros [= <-]. now apply (Hf a).
Qed.

Lemma add_int_raises (d : option value) (k : Z) (e : exn) :
  add_int d k = Raise e -> e = TypeError.
Proof. destruct d as [[] |]; cbn [add_int]; congruence. Qed.

(** One step of a decoder's body. *)
Ltac decoder_step :=
  match goal with
  | |- context [bind (ord_at ?v ?i) _] =>
      let E := fresh "E" in
      destruct (ord_at v i) as [? | ?] eqn:E; cbn [bind];
      [| apply ord_at_raises in E; subst; cbn [IndexError_TypeError]]
  | |- context [bind (unpack_f ?s) _] =>
      let E := fresh "E" in
      destruct (unpack_f s) as [? | ?] eqn:E; cbn [bind];
      [| apply unpack_f_raises in E; subst; cbn [IndexError_TypeError]]
  | |- context [bind (int ?s) _] =>
      let E := fresh "E" in
      destruct (int s) as [? | ?] eqn:E; cbn [bind];
      [| apply int_raises in E; subst; cbn [IndexError_TypeError]]
  | |- context [bind (add_int ?d ?k) _] =>
      let E := fresh "E" in
      destruct (add_int d k) as [? | ?] eqn:E; cbn [bind];
      [| apply add_int_raises in E; subst; cbn [IndexError_TypeError]]
  end.

Lemma _dec_ascii_returns (v : list byte) : exists r, _dec_ascii v = Return r.
Proof. unfold _dec_ascii, try_except. eauto. Qed.

Lemma _dec_ascii_and_state_returns (v : list byte) :
  exists r, _dec_ascii_and_state v = Return r.
Proof.
  unfold _dec_ascii_and_state, try_except. repeat decoder_step; eauto.
Qed.

Lemma _dec_int_returns (v : list byte) : exists r, _dec_int v = Return r.
Proof. unfold _dec_int, try_except. repeat decoder_step; eauto. Qed.

Lemma _dec_ts_returns (v : list byte) : exists r, _dec_ts v = Return r.
Proof.
  unfold _dec_ts, try_except. destruct (_dec_int_returns v) as [r ->].
  repeat decoder_step; eauto.
Qed.

Lemma _dec_float_raises (v : list byte) (e : exn) :
  _dec_float v = Raise e -> e = StructError.
Proof.
  unfold _dec_float, try_except.
  repeat decoder_step; congruence.
Qed.

Lemma _dec_week_year_raises (v : list byte) (e : exn) :
  _dec_week_year v = Raise e -> e = ValueError.
Proof.
  unfold _dec_week_year, try_except.
  repeat decoder_step; congruence.
Qed.

Lemma _dec_alarms_raises (v : list byte) (e : exn) :
  _dec_alarms v = Raise e -> e = ValueError.
Proof.
  unfold _dec_alarms, try_except.
  destruct (for_each _ _) as [l | e'] eqn:E; cbn [bind].
  - repeat decoder_step; congruence.
  - apply (for_each_raises _ _ (fun e => e = ValueError)) in E;
      [| intros a e0; apply int_raises].
    subst. cbn [IndexError_TypeError]. congruence.
Qed.

(** X15: the decode functions raise nothing but [struct.error], which only
    [_dec_float] raises, and [ValueError], which only [_dec_week_year]
    and [_dec_alarms] raise; the other five always return. *)
Theorem decode_raises_only (fn : decoder) (v : list byte) (e : exn) :
  decode fn v = Raise e ->
  (fn = dec_float /\ e = StructError)
  \/ ((fn = dec_week_year \/ fn = dec_alarms) /\ e = ValueError).
Proof.
  destruct fn; cbn [decode].
  - discriminate.
  - destruct (_dec_ascii_returns v) as [r ->]. discriminate.
  - destruct (_dec_ascii_and_state_returns v) as [r ->]. discriminate.
  - destruct (_dec_float v) eqn:E; cbn [bind]; [discriminate |].
    intros [= <-]. apply _dec_float_raises in E. auto.
  - destruct (_dec_week_year v) eqn:E; cbn [bind]; [discriminate |].
    intros [= <-]. apply _dec_week_year_raises in E. auto.
  - destruct (_dec_ts_returns v) as [r ->]. discriminate.
  - destruct (_dec_int_returns v) as [r ->]. discriminate.
  - destruct (_dec_alarms v) eqn:E; cbn [bind]; [discriminate |].
    intros [= <-]. apply _dec_alarms_raises in E. auto.
Qed.

Lemma decode_raises_only_witness :
  decode dec_alarms [x00; x06; x00; x00; x00; x20] = Raise ValueError
  /\ ((dec_alarms = dec_float /\ ValueError = StructError)
      \/ ((dec_alarms = dec_week_year \/ dec_alarms = dec_alarms)
          /\ ValueError = ValueError)).
Proof.
  assert (E : decode dec_alarms [x00; x06; x00; x00; x00; x20]
              = Raise ValueError) by (vm_compute; reflexivity).
  split; [exact E | exact (decode_raises_only _ _ _ E)].
Defined.

(** ** The exchange *)

Lemma attempt_trace (reading : string) (d : list byte) (p : serial_port) :
  exists block,
    log (snd (attempt reading d p)) = log p ++ block
    /\ attempt_events d block.
Proof.
  unfold attempt, io_bind. pose proof (write_log d p) as Hw.
  destruct (write d p) as [[[] | e] p1]; cbn [snd] in Hw.
  2: { exists [Written d]. split; [exact Hw | now left]. }
  unfold sleep. pose proof (read_with_crc_log 8 (mkPort (write_replies p1)
    (read_replies p1) (log p1 ++ [Slept]))) as Hr.
  exists [Written d; Slept; ReadCalled 8]. split; [| now right].
  assert (E : forall p2, log p2 = (log p1 ++ [Slept]) ++ [ReadCalled 8] ->
                         log p2 = log p ++ [Written d; Slept; ReadCalled 8]).
  { intros p2 ->. rewrite Hw, <- !app_assoc. reflexivity. }
  destruct (read_with_crc 8 _) as [[_resp | e] p2]; cbn [snd log] in Hr.
  2: { now apply E. }
  unfold lift.
  destruct (commands_get reading) as [c | e]; [| now apply E].
  destruct (decode (fn c) _resp); now apply E.
Qed.

Lemma tries_trace (weewx : weewx_package) (counts : list Z)
    (reading : string) (d : list byte) (p : serial_port) :
  exists blocks,
    log (snd (tries weewx counts reading d p)) = log p ++ List.concat blocks
    /\ (List.length blocks <= List.length counts)%nat
    /\ Forall (attempt_events d) blocks.
Proof.
  revert p. induction counts as [| count counts IH]; intros p.
  - exists []. cbn. rewrite app_nil_r. repeat split; [lia | constructor].
  - cbn [tries]. destruct (attempt_trace reading d p) as (block & Hb & Hs).
    destruct (attempt reading d p) as [[r | e] p1]; cbn [snd] in *.
    + exists [block]. cbn [List.concat List.length]. rewrite app_nil_r.
      repeat split; [exact Hb | lia | constructor; [exact Hs | constructor]].
    + destruct (is_WeeWxIOError weewx e).
      * destruct (IH p1) as (blocks & Hl & Hn & Hf). exists (block :: blocks).
        cbn [List.concat List.length].
        repeat split; [| lia | now constructor].
        rewrite Hl, Hb, <- app_assoc. reflexivity.
      * exists [block]. cbn [List.concat List.length snd]. rewrite app_nil_r.
        repeat split; [exact Hb | lia | constructor; [exact Hs | constructor]].
Qed.

(** [send_cmd_with_crc] up to its loop, for any arguments. *)
Lemma send_cmd_with_crc_cases (weewx : weewx_package) (reading : string)
    (globall address max_tries : Z) (p : serial_port) :
  match lookup commands reading with
  | None =>
      send_cmd_with_crc weewx reading globall address max_tries p
      = (Raise (KeyError reading), p)
  | Some c =>
      if (0 <=? address) && (address <=? 255)
         && ((0 <=? globall) && (globall <=? 255))
      then send_cmd_with_crc weewx reading globall address max_tries p
           = tries weewx (Py.range max_tries) reading
               (wire address c globall) p
      else send_cmd_with_crc weewx reading globall address max_tries p
           = (Raise StructError, p)
  end.
Proof.
  destruct (lookup commands reading) as [c |] eqn:L.
  - destruct ((0 <=? address) && (address <=? 255)) eqn:Ha.
    + destruct ((0 <=? globall) && (globall <=? 255)) eqn:Hg; cbn [andb].
      * apply send_cmd_with_crc_tries; [exact L | lia | lia].
      * destruct (commands_in_range _ _ L) as [Hc Hs].
        unfold send_cmd_with_crc, io_bind, lift, commands_get.
        rewrite L. unfold pack_4B.
        rewrite !pack_B_range by lia. cbn [bind].
        unfold Py.pack_B. rewrite Hg. reflexivity.
    + cbn [andb].
      unfold send_cmd_with_crc, io_bind, lift, commands_get.
      rewrite L. unfold pack_4B, Py.pack_B at 1. rewrite Ha. reflexivity.
  - unfold send_cmd_with_crc, io_bind, lift, commands_get. now rewrite L.
Qed.

(** X16: what a call of [send_cmd_with_crc] does to the port, whatever its
    arguments and whatever the port answers: a sequence of at most
    [max_tries] attempts, each of them either one write of the frame that
    failed, or one write of the frame, the sleep and one read of eight
    bytes.  It never reads before it has written and never writes anything
    but the frame of the reading; for an unknown reading it does
    nothing. *)
Theorem exchange_events (weewx : weewx_package) (reading : string)
    (globall address max_tries : Z) (p : serial_port) :
  exists blocks,
    log (snd (send_cmd_with_crc weewx reading globall address max_tries p))
    = log p ++ List.concat blocks
    /\ (List.length blocks <= Z.to_nat max_tries)%nat
    /\ match lookup commands reading with
       | Some c => Forall (attempt_events (wire address c globall)) blocks
       | None => blocks = []
       end.
Proof.
  pose proof (send_cmd_with_crc_cases weewx reading globall address
                max_tries p) as H.
  destruct (lookup commands reading) as [c |].
  - destruct (_ && _).
    + rewrite H.
      destruct (tries_trace weewx (Py.range max_tries) reading
                  (wire address c globall) p) as (blocks & Hl & Hn & Hf).
      rewrite range_length in Hn. now exists blocks.
    + rewrite H. exists []. cbn. rewrite app_nil_r.
      repeat split; [lia | constructor].
  - rewrite H. exists []. cbn. rewrite app_nil_r. repeat split; lia.
Qed.

Lemma _dec_float_six (v : list byte) :
  List.length v = 6%nat -> exists r, _dec_float v = Return r.
Proof.
  destruct v as [| b0 [| b1 [| b2 [| b3 [| b4 [| b5 [| b v]]]]]]];
    try discriminate.
  intros _. eexists. reflexivity.
Qed.

(** What a successful attempt returns: the decoded payload of the answer
    the port gave, which passed the check. *)
Lemma attempt_returns (reading : string) (d : list byte)
    (p p' : serial_port) (r : option ResponseTuple) :
  attempt reading d p = (Return r, p') ->
  exists c buffer rs payload t,
    lookup commands reading = Some c
    /\ read_replies p = Arrived buffer :: rs
    /\ firstn 8 buffer = payload ++ t
    /\ List.length payload = 6%nat
    /\ word2struct (crc16 payload) = Return t
    /\ decode (fn c) payload = Return r.
Proof.
  unfold attempt, io_bind. pose proof (write_keeps_replies d p) as Hw.
  destruct (write d p) as [[[] | e] p1]; [| discriminate]. cbn [snd] in Hw.
  unfold sleep.
  destruct (read_with_crc 8 _) as [[_resp | e] p2] eqn:R; [| discriminate].
  apply read_with_crc_8_returns in R.
  destruct R as (buffer & rs & t & Hr & Hb & Hl & Ht & _).
  cbn [read_replies] in Hr. rewrite Hw in Hr.
  unfold lift, commands_get.
  destruct (lookup commands reading) as [c |]; [| discriminate].
  intros [= D _]. exists c, buffer, rs, _resp, t. repeat split; trivial.
Qed.

(** The answers an attempt leaves on the port are the ones it found, less
    at most the first. *)
Lemma attempt_replies (reading : string) (d : list byte) (p : serial_port) :
  read_replies (snd (attempt reading d p)) = read_replies p
  \/ exists a, read_replies p
               = a :: read_replies (snd (attempt reading d p)).
Proof.
  unfold attempt, io_bind. pose proof (write_keeps_replies d p) as Hw.
  destruct (write d p) as [[[] | e] p1]; cbn [snd] in Hw; [| now left].
  unfold sleep.
  assert (R : read_replies (snd (read_with_crc 8 (mkPort (write_replies p1)
                (read_replies p1) (log p1 ++ [Slept])))) = read_replies p
              \/ exists a, read_replies p
                 = a :: read_replies (snd (read_with_crc 8 (mkPort
                     (write_replies p1) (read_replies p1)
                     (log p1 ++ [Slept]))))).
  { unfold read_with_crc, io_bind, read, serial_read, lift.
    cbn [read_replies]. rewrite Hw.
    destruct (read_replies p) as [| [buffer | msg] rs].
    - left.
      repeat match goal with
        | |- context [if ?b then _ else _] => destruct b
        end; reflexivity.
    - right. exists (Arrived buffer).
      destruct (negb _); [reflexivity |].
      destruct (strip_crc16 _); reflexivity.
    - right. exists (ReadFault msg). reflexivity. }
  destruct (read_with_crc 8 _) as [[_resp | e] p2]; cbn [snd] in *;
    [| exact R].
  unfold lift. destruct (commands_get reading) as [c | e]; [| exact R].
  destruct (decode (fn c) _resp); exact R.
Qed.

Lemma tries_returns (weewx : weewx_package) (counts : list Z)
    (reading : string) (d : list byte) (p p' : serial_port)
    (r : option ResponseTuple) :
  tries weewx counts reading d p = (Return r, p') ->
  exists c buffer payload t,
    lookup commands reading = Some c
    /\ In (Arrived buffer) (read_replies p)
    /\ firstn 8 buffer = payload ++ t
    /\ List.length payload = 6%nat
    /\ word2struct (crc16 payload) = Return t
    /\ decode (fn c) payload = Return r.
Proof.
  revert p. induction counts as [| count counts IH]; intros p;
    [discriminate |].
  cbn [tries]. pose proof (attempt_replies reading d p) as Hs.
  destruct (attempt reading d p) as [[r1 | e] p1] eqn:A; cbn [snd] in Hs.
  - intros [= -> ->]. apply attempt_returns in A.
    destruct A as (c & buffer & rs & payload & t & L & Hr & H).
    exists c, buffer, payload, t. split; [exact L |].
    split; [rewrite Hr; now left | exact H].
  - destruct (is_WeeWxIOError weewx e); [| discriminate].
    intros H. apply IH in H.
    destruct H as (c & buffer & payload & t & L & Hin & H).
    exists c, buffer, payload, t. split; [exact L |]. split; [| exact H].
    destruct Hs as [<- | [a ->]]; [exact Hin | now right].
Qed.

(** X17: what [send_cmd_with_crc] returns was decoded, by the decode
    function of the reading, from a six byte payload that the port
    delivered as the first eight bytes of one of its answers, followed by
    the checksum of that payload. *)
Theorem returned_value_was_checked (weewx : weewx_package) (reading : string)
    (globall address max_tries : Z) (p p' : serial_port)
    (r : option ResponseTuple) :
  send_cmd_with_crc weewx reading globall address max_tries p
  = (Return r, p') ->
  exists c buffer payload t,
    lookup commands reading = Some c
    /\ In (Arrived buffer) (read_replies p)
    /\ firstn 8 buffer = payload ++ t
    /\ List.length payload = 6%nat
    /\ word2struct (crc16 payload) = Return t
    /\ decode (fn c) payload = Return r.
Proof.
  pose proof (send_cmd_with_crc_cases weewx reading globall address
                max_tries p) as H.
  destruct (lookup commands reading) as [c |] eqn:L.
  - destruct (_ && _); rewrite H; [| discriminate].
    intros T. apply tries_returns in T. rewrite L in T. exact T.
  - rewrite H. discriminate.
Qed.

Lemma returned_value_was_checked_witness :
  send_cmd_with_crc weewx_released "dayEnergy" 0 2 3 noisy_port
  = (Return (Some (mkResponseTuple (Some 0) (Some 6) (Some (DInt 256)))),
     snd (send_cmd_with_crc weewx_released "dayEnergy" 0 2 3 noisy_port))
  /\ exists c buffer payload t,
       lookup commands "dayEnergy" = Some c
       /\ In (Arrived buffer) (read_replies noisy_port)
       /\ firstn 8 buffer = payload ++ t
       /\ List.length payload = 6%nat
       /\ word2struct (crc16 payload) = Return t
       /\ decode (fn c) payload
          = Return (Some (mkResponseTuple (Some 0) (Some 6)
                            (Some (DInt 256)))).
Proof.
  assert (E : send_cmd_with_crc weewx_released "dayEnergy" 0 2 3 noisy_port
              = (Return (Some (mkResponseTuple (Some 0) (Some 6)
                                 (Some (DInt 256)))),
                 snd (send_cmd_with_crc weewx_released "dayEnergy" 0 2 3
                        noisy_port)))
    by (vm_compute; reflexivity).
  split; [exact E | exact (returned_value_was_checked _ _ _ _ _ _ _ _ E)].
Defined.

Lemma strip_crc16_raises (buffer : list byte) (e : exn) :
  strip_crc16 buffer = Raise e -> e = CRCError crc_failed.
Proof.
  unfold strip_crc16. rewrite word2struct_word by apply crc16_word.
  cbn [bind]. destruct (Py.str_eqb _ _); congruence.
Qed.

(** What a failed attempt raises, for a reading of the registry. *)
Lemma attempt_raises (reading : string) (c : command) (d : list byte)
    (p p' : serial_port) (e : exn) :
  lookup commands reading = Some c ->
  attempt reading d p = (Raise e, p') ->
  (exists msg, e = WeeWxIOError msg)
  \/ (exists msg, e = SerialException msg
                  /\ In (ReadFault msg) (read_replies p))
  \/ e = CRCError crc_failed
  \/ ((fn c = dec_week_year \/ fn c = dec_alarms) /\ e = ValueError).
Proof.
  intros L. unfold attempt, io_bind.
  pose proof (write_keeps_replies d p) as Hw.
  assert (We : forall e1, fst (write d p) = Raise e1 ->
                          exists msg, e1 = WeeWxIOError msg).
  { intros e1. unfold write, serial_write.
    destruct (write_replies p) as [| [[n |] | m] ws];
      repeat match goal with
        | |- context [if ?b then _ else _] => destruct b
        end; cbn [fst]; try discriminate; intros [= <-]; eauto. }
  destruct (write d p) as [[[] | e1] p1]; cbn [snd fst] in *.
  2: { intros [= <- _]. left. now apply We. }
  unfold sleep.
  destruct (read_with_crc 8 _) as [[_resp | e1] p2] eqn:R.
  - apply read_with_crc_8_returns in R.
    destruct R as (buffer & rs & t & _ & _ & Hl & _).
    unfold lift, commands_get. rewrite L.
    destruct (decode (fn c) _resp) as [r | e1] eqn:D; [discriminate |].
    intros [= <- _]. right. right. right.
    destruct (fn c) eqn:F; cbn [decode] in D.
    + discriminate.
    + destruct (_dec_ascii_returns _resp) as [r E]. rewrite E in D.
      discriminate.
    + destruct (_dec_ascii_and_state_returns _resp) as [r E].
      rewrite E in D. discriminate.
    + destruct (_dec_float_six _resp Hl) as [r E]. rewrite E in D.
      discriminate.
    + destruct (_dec_week_year _resp) eqn:E; [discriminate |].
      apply _dec_week_year_raises in E. cbn [bind] in D.
      split; [now left | congruence].
    + destruct (_dec_ts_returns _resp) as [r E]. rewrite E in D.
      discriminate.
    + destruct (_dec_int_returns _resp) as [r E]. rewrite E in D.
      discriminate.
    + destruct (_dec_alarms _resp) eqn:E; [discriminate |].
      apply _dec_alarms_raises in E. cbn [bind] in D.
      split; [now right | congruence].
  - intros [= <- _]. revert R.
    unfold read_with_crc, io_bind, read, serial_read, lift.
    cbn [read_replies]. rewrite Hw.
    destruct (read_replies p) as [| [buffer | msg] rs].
    + destruct (negb _); [| destruct (strip_crc16 _) eqn:S].
      * intros [= <- _]. left. eauto.
      * discriminate.
      * intros [= <- _]. right. right. left.
        now apply strip_crc16_raises in S.
    + destruct (negb _); [| destruct (strip_crc16 _) eqn:S].
      * intros [= <- _]. left. eauto.
      * discriminate.
      * intros [= <- _]. right. right. left.
        now apply strip_crc16_raises in S.
    + intros [= <- _]. right. left. exists msg. split; [reflexivity |].
      now left.
Qed.

Lemma tries_raises (weewx : weewx_package) (counts : list Z)
    (reading : string) (c : command) (d : list byte) (p : serial_port)
    (e : exn) :
  lookup commands reading = Some c ->
  fst (tries weewx counts reading d p) = Raise e ->
  e = WeeWxIOError unable
  \/ (exists msg, e = SerialException msg
                  /\ In (ReadFault msg) (read_replies p))
  \/ (CRCError_is_a_WeeWxIOError weewx = false /\ e = CRCError crc_failed)
  \/ ((fn c = dec_week_year \/ fn c = dec_alarms) /\ e = ValueError).
Proof.
  intros L. revert p. induction counts as [| count counts IH]; intros p.
  - cbn. intros [= <-]. now left.
  - cbn [tries]. pose proof (attempt_replies reading d p) as Hs.
    destruct (attempt reading d p) as [[r | e1] p1] eqn:A; cbn [snd] in Hs;
      [discriminate |].
    destruct (is_WeeWxIOError weewx e1) eqn:W.
    + intros H. apply IH in H.
      destruct H as [H | [(msg & H & Hin) | H]]; [now left | | now right; right].
      right. left. exists msg. split; [exact H |].
      destruct Hs as [<- | [a ->]]; [exact Hin | now right].
    + cbn [fst]. intros [= <-].
      destruct (attempt_raises _ _ _ _ _ _ L A)
        as [[msg ->] | [H | [-> | H]]].
      * discriminate.
      * right. now left.
      * right. right. left. split; [exact W | reflexivity].
      * right. right. right. exact H.
Qed.

(** X18: the exceptions a caller of [send_cmd_with_crc] can get: [KeyError]
    for an unknown reading; [struct.error] for an address or a [globall]
    outside 0..255; the [WeeWxIOError] with the fixed message when the
    attempts ran out; a [SerialException] that the port raised on a read;
    [ValueError] from the decoders of [manufactureDate] and [lastAlarms];
    and [CRCError] only with a [weewx] in which it is not a
    [WeeWxIOError].  The errors of single attempts never reach the
    caller. *)
Theorem send_cmd_with_crc_raises (weewx : weewx_package) (reading : string)
    (globall address max_tries : Z) (p : serial_port) (e : exn) :
  fst (send_cmd_with_crc weewx reading globall address max_tries p)
  = Raise e ->
  (lookup commands reading = None /\ e = KeyError reading)
  \/ (~ (0 <= address <= 255 /\ 0 <= globall <= 255) /\ e = StructError)
  \/ e = WeeWxIOError unable
  \/ (exists msg, e = SerialException msg
                  /\ In (ReadFault msg) (read_replies p))
  \/ (CRCError_is_a_WeeWxIOError weewx = false /\ e = CRCError crc_failed)
  \/ (exists c, lookup commands reading = Some c
                /\ (fn c = dec_week_year \/ fn c = dec_alarms)
                /\ e = ValueError).
Proof.
  pose proof (send_cmd_with_crc_cases weewx reading globall address
                max_tries p) as H.
  destruct (lookup commands reading) as [c |] eqn:L.
  - destruct (_ && _) eqn:B; rewrite H.
    + intros T. apply (tries_raises _ _ _ c) in T; [| exact L].
      destruct T as [T | [T | [T | T]]]; auto 6.
      do 5 right. exists c. tauto.
    + cbn [fst]. intros [= <-]. right. left. split; [lia | reflexivity].
  - rewrite H. cbn [fst]. intros [= <-]. now left.
Qed.

Lemma send_cmd_with_crc_raises_witness :
  fst (send_cmd_with_crc weewx_released "gridV" 0 2 3 silent_port)
  = Raise (WeeWxIOError unable)
  /\ ((lookup commands "gridV" = None
       /\ WeeWxIOError unable = KeyError "gridV")
      \/ (~ (0 <= 2 <= 255 /\ 0 <= 0 <= 255)
          /\ WeeWxIOError unable = StructError)
      \/ WeeWxIOError unable = WeeWxIOError unable
      \/ (exists msg, WeeWxIOError unable = SerialException msg
                      /\ In (ReadFault msg) (read_replies silent_port))
      \/ (CRCError_is_a_WeeWxIOError weewx_released = false
          /\ WeeWxIOError unable = CRCError crc_failed)
      \/ (exists c, lookup commands "gridV" = Some c
                    /\ (fn c = dec_week_year \/ fn c = dec_alarms)
                    /\ WeeWxIOError unable = ValueError)).
Proof.
  assert (E : fst (send_cmd_with_crc weewx_released "gridV" 0 2 3
                     silent_port) = Raise (WeeWxIOError unable))
    by (vm_compute; reflexivity).
  split; [exact E | exact (send_cmd_with_crc_raises _ _ _ _ _ _ _ E)].
Defined.

(** X19: a [SerialException] of the port on a read is not an error that is
    tried again: when the frame was written and the read raises, the call
    raises the same exception after this one exchange, however many
    attempts were left. *)
Theorem read_fault_ends_the_call (weewx : weewx_package) (reading : string)
    (c : command) (globall address max_tries : Z) (p : serial_port)
    (msg : string) (rs : list read_reply) :
  lookup commands reading = Some c ->
  0 <= address <= 255 -> 0 <= globall <= 255 -> 0 < max_tries ->
  fst (write (wire address c globall) p) = Return tt ->
  read_replies p = ReadFault msg :: rs ->
  fst (send_cmd_with_crc weewx reading globall address max_tries p)
  = Raise (SerialException msg)
  /\ log (snd (send_cmd_with_crc weewx reading globall address max_tries p))
     = log p ++ [Written (wire address c globall); Slept; ReadCalled 8]
  /\ read_replies
       (snd (send_cmd_with_crc weewx reading globall address max_tries p))
     = rs.
Proof.
  intros L Ha Hg Hm Hw Hr.
  rewrite (send_cmd_with_crc_tries weewx reading c) by assumption.
  rewrite (range_pos max_tries Hm). cbn [tries].
  assert (A : exists p1,
             attempt reading (wire address c globall) p
             = (Raise (SerialException msg), p1)
             /\ log p1 = log p ++ [Written (wire address c globall); Slept;
                                   ReadCalled 8]
             /\ read_replies p1 = rs).
  { unfold attempt, io_bind.
    pose proof (write_keeps_replies (wire address c globall) p) as Hk.
    pose proof (write_log (wire address c globall) p) as Hl.
    destruct (write (wire address c globall) p) as [[[] | e] p1];
      [| discriminate].
    cbn [snd] in Hk, Hl.
    unfold sleep, read_with_crc, io_bind, read, serial_read.
    cbn [read_replies]. rewrite Hk, Hr. eexists. split; [reflexivity |].
    cbn [log read_replies]. rewrite Hl, <- !app_assoc. now split. }
  destruct A as (p1 & -> & Hl & Hrs). cbn [is_WeeWxIOError fst snd].
  repeat split; assumption.
Qed.

Lemma read_fault_ends_the_call_witness :
  (lookup commands "gridV" = Some (mkCommand 59 1 dec_float)
   /\ 0 <= 2 <= 255 /\ 0 <= 0 <= 255 /\ 0 < 3
   /\ fst (write (wire 2 (mkCommand 59 1 dec_float) 0)
             (mkPort [] [ReadFault "device disconnected";
                         Arrived response_ok] []))
      = Return tt)
  /\ fst (send_cmd_with_crc weewx_released "gridV" 0 2 3
            (mkPort [] [ReadFault "device disconnected";
                        Arrived response_ok] []))
     = Raise (SerialException "device disconnected").
Proof.
  assert (L : lookup commands "gridV" = Some (mkCommand 59 1 dec_float))
    by reflexivity.
  assert (W : fst (write (wire 2 (mkCommand 59 1 dec_float) 0)
                     (mkPort [] [ReadFault "device disconnected";
                                 Arrived response_ok] []))
              = Return tt) by (vm_compute; reflexivity).
  split.
  - split; [exact L |]. split; [lia |]. split; [lia |]. split; [lia |].
    exact W.
  - exact (proj1 (read_fault_ends_the_call weewx_released "gridV"
                    (mkCommand 59 1 dec_float) 0 2 3
                    (mkPort [] [ReadFault "device disconnected";
                                Arrived response_ok] [])
                    "device disconnected" [Arrived response_ok]
                    L ltac:(lia) ltac:(lia) ltac:(lia) W eq_refl)).
Defined.

(** X20: an address or a [globall] that is not a byte makes
    [struct.pack] fail before anything is sent: for a reading of the
    registry the call raises [struct.error] and leaves the port as it
    was. *)
Theorem bad_address_fails_at_once (weewx : weewx_package) (reading : string)
    (c : command) (globall address max_tries : Z) (p : serial_port) :
  lookup commands reading = Some c ->
  ~ (0 <= address <= 255 /\ 0 <= globall <= 255) ->
  send_cmd_with_crc weewx reading globall address max_tries p
  = (Raise StructError, p).
Proof.
  intros L H.
  pose proof (send_cmd_with_crc_cases weewx reading globall address
                max_tries p) as C.
  rewrite L in C. destruct (_ && _) eqn:B; [| exact C].
  exfalso. apply H. lia.
Qed.

Lemma bad_address_fails_at_once_witness :
  (lookup commands "gridV" = Some (mkCommand 59 1 dec_float)
   /\ ~ (0 <= 256 <= 255 /\ 0 <= 0 <= 255))
  /\ send_cmd_with_crc weewx_released "gridV" 0 256 3 silent_port
     = (Raise StructError, silent_port).
Proof.
  assert (L : lookup commands "gridV" = Some (mkCommand 59 1 dec_float))
    by reflexivity.
  assert (H : ~ (0 <= 256 <= 255 /\ 0 <= 0 <= 255)) by lia.
  split; [split; [exact L | exact H] |].
  exact (bad_address_fails_at_once weewx_released "gridV" _ 0 256 3
           silent_port L H).
Defined.

(** With [max_tries] zero or negative the loop body never runs: for a
    reading of the registry and byte arguments the call raises the
    [WeeWxIOError] of the exhausted attempts without touching the port. *)
Theorem no_tries_no_exchange (weewx : weewx_package) (reading : string)
    (c : command) (globall address max_tries : Z) (p : serial_port) :
  lookup commands reading = Some c ->
  0 <= address <= 255 -> 0 <= globall <= 255 -> max_tries <= 0 ->
  send_cmd_with_crc weewx reading globall address max_tries p
  = (Raise (WeeWxIOError unable), p).
Proof.
  intros L Ha Hg Hm.
  rewrite (send_cmd_with_crc_tries weewx reading c) by assumption.
  unfold Py.range. replace (Z.to_nat max_tries) with 0%nat by lia.
  reflexivity.
Qed.

Lemma no_tries_no_exchange_witness :
  (lookup commands "gridV" = Some (mkCommand 59 1 dec_float)
   /\ 0 <= 2 <= 255 /\ 0 <= 0 <= 255 /\ 0 <= 0)
  /\ send_cmd_with_crc weewx_released "gridV" 0 2 0 noisy_port
     = (Raise (WeeWxIOError unable), noisy_port).
Proof.
  assert (L : lookup commands "gridV" = Some (mkCommand 59 1 dec_float))
    by reflexivity.
  split; [split; [exact L | lia] |].
  exact (no_tries_no_exchange weewx_released "gridV" _ 0 2 0 noisy_port
           L ltac:(lia) ltac:(lia) ltac:(lia)).
Defined.

(** ** The retry loop, attempt by attempt *)






(** What a decode function returns for six bytes. *)
Lemma decode_six (fn : decoder) (payload : list byte)
    (r : option ResponseTuple) :
  List.length payload = 6%nat ->
  decode fn payload = Return r -> decoded fn r.
Proof.
  intros Hl.
  destruct payload as [| b0 [| b1 [| b2 [| b3 [| b4 [| b5 [| b v]]]]]]];
    try discriminate.
  destruct fn; cbn [decode decoded].
  - now intros [= <-].
  - intros [= <-]. eexists. reflexivity.
  - intros [= <-]. do 3 eexists. reflexivity.
  - intros [= <-]. do 3 eexists. reflexivity.
  - unfold _dec_week_year, try_except, ord_at, Py.index.
    cbn [nth_error bind].
    destruct (int (Py.slice (Some 2) (Some 4) _)) as [week | e] eqn:E1;
      cbn [bind];
      [| apply int_raises in E1; subst; cbn [IndexError_TypeError bind];
         discriminate].
    destruct (int (Py.slice (Some 4) (Some 6) _)) as [year | e] eqn:E2;
      cbn [bind];
      [| apply int_raises in E2; subst; cbn [IndexError_TypeError bind];
         discriminate].
    intros [= <-]. do 3 eexists. reflexivity.
  - intros [= <-]. do 3 eexists. reflexivity.
  - intros [= <-]. do 3 eexists. reflexivity.
  - unfold _dec_alarms, try_except.
    destruct (for_each _ _) as [l | e] eqn:E; cbn [bind].
    + unfold ord_at, Py.index. cbn [nth_error bind].
      intros [= <-]. do 3 eexists. reflexivity.
    + apply (for_each_raises _ _ (fun e => e = ValueError)) in E;
        [| intros a e0; apply int_raises].
      subst. cbn [IndexError_TypeError]. discriminate.
Qed.




(** C4, amended: when every one of the [max_tries] attempts raises a
    [WeeWxIOError] the call writes [max_tries] times and raises
    [WeeWxIOError] with the fixed message [unable]; when attempt [S k] is
    the first that does not, and it returns, the call returns after
    exactly [S k] writes what the decode function of the reading makes
    of the six checked bytes that the port gave at that attempt: a
    response tuple with its data, and with both states unless the
    decoder is [_dec_ascii]; only for the stub [_dec_state] it is
    [None]. *)
Theorem retries_until_success_or_exhaustion (weewx : weewx_package)
    (reading : string) (c : command) (globall address max_tries : Z)
    (p : serial_port) :
  lookup commands reading = Some c ->
  0 <= address <= 255 -> 0 <= globall <= 255 ->
  (forall p',
      after_failures weewx (Z.to_nat max_tries) reading
        (wire address c globall) p = Some p' ->
      send_cmd_with_crc weewx reading globall address max_tries p
      = (Raise (WeeWxIOError unable), p')
      /\ writes (log p')
         = writes (log p)
           ++ repeat (wire address c globall) (Z.to_nat max_tries))
  /\ (forall k p1 r p2,
         (k < Z.to_nat max_tries)%nat ->
         after_failures weewx k reading (wire address c globall) p = Some p1 ->
         attempt reading (wire address c globall) p1 = (Return r, p2) ->
         send_cmd_with_crc weewx reading globall address max_tries p
         = (Return r, p2)
         /\ writes (log p2)
            = writes (log p) ++ repeat (wire address c globall) (S k)
         /\ (exists buffer rs payload t,
                read_replies p1 = Arrived buffer :: rs
                /\ firstn 8 buffer = payload ++ t
                /\ List.length payload = 6%nat
                /\ word2struct (crc16 payload) = Return t
                /\ decode (fn c) payload = Return r)
         /\ decoded (fn c) r).
Proof.
  intros Hc Ha Hg.
  rewrite (send_cmd_with_crc_tries weewx reading c) by assumption.
  split.
  - intros p' H. rewrite <- range_length in *. now apply tries_all_fail.
  - intros k p1 r p2 Hk Hf Hs. rewrite <- range_length in Hk.
    destruct (tries_first_success weewx _ reading _ k p p1 p2 r Hk Hf Hs)
      as [E W].
    split; [exact E |]. split; [exact W |].
    destruct (attempt_returns _ _ _ _ _ Hs)
      as (c' & buffer & rs & payload & t & L & Hr & Hb & Hl & Ht & D).
    rewrite Hc in L. injection L as <-.
    split; [now exists buffer, rs, payload, t |].
    exact (decode_six _ _ _ Hl D).
Qed.

Lemma retries_until_success_or_exhaustion_witness :
  (lookup commands "dayEnergy" = Some (mkCommand 78 0 dec_int)
   /\ 0 <= 2 <= 255 /\ 0 <= 0 <= 255)
  /\ (fst (send_cmd_with_crc weewx_released "dayEnergy" 0 2 3 silent_port)
      = Raise (WeeWxIOError unable)
      /\ writes (log (snd (send_cmd_with_crc weewx_released "dayEnergy" 0 2 3
                             silent_port)))
         = repeat (wire 2 (mkCommand 78 0 dec_int) 0) 3)
  /\ (fst (send_cmd_with_crc weewx_released "dayEnergy" 0 2 3 slow_port)
      = Return (Some (mkResponseTuple (Some 0) (Some 6) (Some (DInt 256))))
      /\ writes (log (snd (send_cmd_with_crc weewx_released "dayEnergy" 0 2 3
                             slow_port)))
         = repeat (wire 2 (mkCommand 78 0 dec_int) 0) 2
      /\ decoded dec_int
           (Some (mkResponseTuple (Some 0) (Some 6) (Some (DInt 256))))).
Proof.
  split; [split; [reflexivity | lia] |].
  pose proof (retries_until_success_or_exhaustion weewx_released
                "dayEnergy" (mkCommand 78 0 dec_int) 0 2 3) as T.
  split.
  - destruct (T silent_port eq_refl ltac:(lia) ltac:(lia)) as [A _].
    destruct (A (mkPort [] []
                   (exchanges (wire 2 (mkCommand 78 0 dec_int) 0) 3)))
      as [E W]; [vm_compute; reflexivity |].
    rewrite E. split; [reflexivity | exact W].
  - destruct (T slow_port eq_refl ltac:(lia) ltac:(lia)) as [_ B].
    destruct (B 1%nat
                (mkPort [] [Arrived response_ok]
                   (exchanges (wire 2 (mkCommand 78 0 dec_int) 0) 1))
                (Some (mkResponseTuple (Some 0) (Some 6) (Some (DInt 256))))
                (mkPort [] []
                   (exchanges (wire 2 (mkCommand 78 0 dec_int) 0) 2)))
      as (E & W & _ & D);
      [cbn; lia | vm_compute; reflexivity | vm_compute; reflexivity |].
    rewrite E. split; [reflexivity |]. split; [exact W | exact D].
Defined.

(** C4, counterexample: after three failed attempts for [gridV] the call
    raises the same exception as after five for [dayEnergy], and its
    message holds neither the reading nor the count; and for the reading
    [state] a sound response gives [None], no response tuple. *)
Lemma exhausted_error_names_nothing :
  fst (send_cmd_with_crc weewx_released "gridV" 0 2 3 silent_port)
  = Raise (WeeWxIOError unable)
  /\ fst (send_cmd_with_crc weewx_released "dayEnergy" 0 2 5 silent_port)
     = Raise (WeeWxIOError unable)
  /\ String.index 0 "gridV" unable = None
  /\ String.index 0 "3" unable = None
  /\ fst (send_cmd_with_crc weewx_released "state" 0 2 3
            (mkPort [] [Arrived response_ok] []))
     = Return None.
Proof. split; [| split; [| split; [| split]]]; vm_compute; reflexivity. Qed.

(** ** The driver's commands *)

(** What [do_cmd] returns was decoded from six checked bytes. *)
Lemma do_cmd_returns (weewx : weewx_package) (self : AuroraDriver)
    (reading : string) (globall : Z) (p p' : serial_port)
    (r : option ResponseTuple) :
  do_cmd weewx self reading globall p = (Return r, p') ->
  exists c b0 b1 b2 b3 b4 b5,
    lookup commands reading = Some c
    /\ decode (fn c) [b0; b1; b2; b3; b4; b5] = Return r.
Proof.
  unfold do_cmd.
  pose proof (send_cmd_with_crc_cases weewx reading globall 2 3 p) as H.
  destruct (lookup commands reading) as [c |] eqn:L.
  - destruct (_ && _); rewrite H; [| discriminate].
    intros T. apply tries_returns in T.
    destruct T as (c' & buffer & payload & t & L' & _ & _ & Hl & _ & D).
    rewrite L in L'. injection L' as <-.
    destruct payload as [| b0 [| b1 [| b2 [| b3 [| b4 [| b5 [| b v]]]]]]];
      try discriminate.
    exists c, b0, b1, b2, b3, b4, b5. now split.
  - rewrite H. discriminate.
Qed.

(** What [do_cmd] raises, for a reading of the registry. *)
Lemma do_cmd_raises (weewx : weewx_package) (self : AuroraDriver)
    (reading : string) (globall : Z) (p : serial_port) (e : exn) :
  in_commands reading = true -> 0 <= globall <= 255 ->
  fst (do_cmd weewx self reading globall p) = Raise e ->
  e = WeeWxIOError unable
  \/ (exists msg, e = SerialException msg)
  \/ (CRCError_is_a_WeeWxIOError weewx = false /\ e = CRCError crc_failed)
  \/ e = ValueError.
Proof.
  unfold in_commands, do_cmd. intros L Hg.
  pose proof (send_cmd_with_crc_cases weewx reading globall 2 3 p) as H.
  destruct (lookup commands reading) as [c |] eqn:Lc; [| discriminate].
  destruct (_ && _) eqn:B; [| lia]. rewrite H.
  intros T. apply (tries_raises _ _ _ c) in T; [| exact Lc].
  destruct T as [T | [(msg & T & _) | [T | [_ T]]]]; eauto.
Qed.

(** [do_cmd_data] returns the [data] of a tuple that [do_cmd]
    returned. *)
Lemma do_cmd_data_returned (weewx : weewx_package) (self : AuroraDriver)
    (reading : string) (globall : Z) (p p' : serial_port)
    (d : option value) :
  do_cmd_data weewx self reading globall p = (Returned d, p') ->
  exists r, do_cmd weewx self reading globall p = (Return (Some r), p')
            /\ d = data r.
Proof.
  unfold do_cmd_data.
  destruct (do_cmd weewx self reading globall p) as [[[r |] | e] p1];
    intros H; inversion H; subst. now exists r.
Qed.

(** X21: [do_cmd] does not pass the configured [address] and [max_tries]
    on: whatever the driver was configured with, every frame it writes is
    addressed to inverter 2, and it writes at least one and at most three
    of them. *)
Theorem do_cmd_ignores_configuration (weewx : weewx_package)
    (self : AuroraDriver) (reading : string) (c : command) (globall : Z)
    (p : serial_port) :
  lookup commands reading = Some c -> 0 <= globall <= 255 ->
  exists k,
    (1 <= k <= 3)%nat
    /\ writes (log (snd (do_cmd weewx self reading globall p)))
       = writes (log p) ++ repeat (wire 2 c globall) k.
Proof.
  intros L Hg. unfold do_cmd.
  rewrite (send_cmd_with_crc_tries weewx reading c) by (trivial; lia).
  destruct (tries_writes weewx (Py.range 3) reading (wire 2 c globall) p)
    as (k & Hk & Hpos & W).
  exists k. split; [| exact W].
  rewrite range_length in Hk. split; [| lia].
  apply Hpos. discriminate.
Qed.

Lemma do_cmd_ignores_configuration_witness :
  (lookup commands "gridV" = Some (mkCommand 59 1 dec_float)
   /\ 0 <= 0 <= 255)
  /\ exists k,
       (1 <= k <= 3)%nat
       /\ writes (log (snd (do_cmd weewx_released
                              (mkDriver "Aurora" "/dev/ttyUSB0" 5 10 7 false
                                 None [] [])
                              "gridV" 0 silent_port)))
          = writes (log silent_port)
            ++ repeat (wire 2 (mkCommand 59 1 dec_float) 0) k.
Proof.
  split; [split; [reflexivity | lia] |].
  exact (do_cmd_ignores_configuration weewx_released
           (mkDriver "Aurora" "/dev/ttyUSB0" 5 10 7 false None [] [])
           "gridV" (mkCommand 59 1 dec_float) 0 silent_port
           eq_refl ltac:(lia)).
Defined.

(** X22: when [getTime] returns, it returns an integer: the four data bytes
    of the checked response as a number below 2^32, plus 946648800.  It
    never returns [None]. *)
Theorem getTime_returns_a_timestamp (weewx : weewx_package)
    (self : AuroraDriver) (p p' : serial_port) (d : option value) :
  getTime weewx self p = (Returned d, p') ->
  exists ts, d = Some (DInt ts)
             /\ 946648800 <= ts < 946648800 + 2 ^ 32.
Proof.
  unfold getTime. intros H. apply do_cmd_data_returned in H.
  destruct H as (r & E & ->). apply do_cmd_returns in E.
  destruct E as (c & b0 & b1 & b2 & b3 & b4 & b5 & L & D).
  change (lookup commands "timeDate") with (Some (mkCommand 70 0 dec_ts)) in L.
  injection L as <-. cbn [fn decode] in D.
  change (_dec_ts [b0; b1; b2; b3; b4; b5])
    with (Return (mkResponseTuple
                    (Some (Py.ord b0)) (Some (Py.ord b1))
                    (Some (DInt (Py.ord b2 * 2 ^ 24 + Py.ord b3 * 2 ^ 16
                                 + Py.ord b4 * 2 ^ 8 + Py.ord b5
                                 + 946648800))))) in D.
  cbn [bind] in D. injection D as <-. cbn [data].
  eexists. split; [reflexivity |].
  pose proof (ord_range b2). pose proof (ord_range b3).
  pose proof (ord_range b4). pose proof (ord_range b5).
  change (2 ^ 24) with 16777216. change (2 ^ 16) with 65536.
  change (2 ^ 8) with 256. change (2 ^ 32) with 4294967296. lia.
Qed.

Lemma getTime_returns_a_timestamp_witness :
  getTime weewx_released
    (mkDriver "Aurora" "/dev/ttyUSB0" 3 10 2 false None [] [])
    (mkPort [] [Arrived response_ok] [])
  = (Returned (Some (DInt 946649056)),
     snd (getTime weewx_released
            (mkDriver "Aurora" "/dev/ttyUSB0" 3 10 2 false None [] [])
            (mkPort [] [Arrived response_ok] [])))
  /\ exists ts, Some (DInt 946649056) = Some (DInt ts)
                /\ 946648800 <= ts < 946648800 + 2 ^ 32.
Proof.
  assert (E : getTime weewx_released
                (mkDriver "Aurora" "/dev/ttyUSB0" 3 10 2 false None [] [])
                (mkPort [] [Arrived response_ok] [])
              = (Returned (Some (DInt 946649056)),
                 snd (getTime weewx_released
                        (mkDriver "Aurora" "/dev/ttyUSB0" 3 10 2 false None
                           [] [])
                        (mkPort [] [Arrived response_ok] []))))
    by (vm_compute; reflexivity).
  split; [exact E | exact (getTime_returns_a_timestamp _ _ _ _ _ E)].
Defined.

(** X23: when [get_last_alarms] returns, it returns four numbers between 0
    and 9: the data bytes are read with [int], so a response whose four
    data bytes are not all ASCII digits never gives a result. *)
Theorem get_last_alarms_returns_digits (weewx : weewx_package)
    (self : AuroraDriver) (p p' : serial_port) (d : option value) :
  get_last_alarms weewx self p = (Returned d, p') ->
  exists a1 a2 a3 a4,
    d = Some (DTuple [a1; a2; a3; a4])
    /\ 0 <= a1 <= 9 /\ 0 <= a2 <= 9 /\ 0 <= a3 <= 9 /\ 0 <= a4 <= 9.
Proof.
  unfold get_last_alarms. intros H. apply do_cmd_data_returned in H.
  destruct H as (r & E & ->). apply do_cmd_returns in E.
  destruct E as (c & b0 & b1 & b2 & b3 & b4 & b5 & L & D).
  change (lookup commands "lastAlarms")
    with (Some (mkCommand 86 0 dec_alarms)) in L.
  injection L as <-. cbn [fn decode] in D.
  unfold _dec_alarms in D.
  change (Py.slice (Some 2) (Some 6) [b0; b1; b2; b3; b4; b5])
    with [b2; b3; b4; b5] in D.
  cbn [for_each] in D. rewrite !int_one_char in D.
  destruct (is_digit b2) eqn:D2; [| discriminate].
  destruct (is_digit b3) eqn:D3; [| discriminate].
  destruct (is_digit b4) eqn:D4; [| discriminate].
  destruct (is_digit b5) eqn:D5; [| discriminate].
  injection D as <-. cbn [data].
  apply is_digit_range in D2, D3, D4, D5.
  do 4 eexists. split; [reflexivity |]. lia.
Qed.

Lemma get_last_alarms_returns_digits_witness :
  get_last_alarms weewx_released
    (mkDriver "Aurora" "/dev/ttyUSB0" 3 10 2 false None [] [])
    (mkPort [] [Arrived [x00; x06; x30; x31; x32; x33; x9d; xda]] [])
  = (Returned (Some (DTuple [0; 1; 2; 3])),
     snd (get_last_alarms weewx_released
            (mkDriver "Aurora" "/dev/ttyUSB0" 3 10 2 false None [] [])
            (mkPort [] [Arrived [x00; x06; x30; x31; x32; x33; x9d; xda]]
               [])))
  /\ exists a1 a2 a3 a4,
       Some (DTuple [0; 1; 2; 3]) = Some (DTuple [a1; a2; a3; a4])
       /\ 0 <= a1 <= 9 /\ 0 <= a2 <= 9 /\ 0 <= a3 <= 9 /\ 0 <= a4 <= 9.
Proof.
  assert (E : get_last_alarms weewx_released
                (mkDriver "Aurora" "/dev/ttyUSB0" 3 10 2 false None [] [])
                (mkPort [] [Arrived [x00; x06; x30; x31; x32; x33; x9d; xda]]
                   [])
              = (Returned (Some (DTuple [0; 1; 2; 3])),
                 snd (get_last_alarms weewx_released
                        (mkDriver "Aurora" "/dev/ttyUSB0" 3 10 2 false None
                           [] [])
                        (mkPort [] [Arrived [x00; x06; x30; x31; x32; x33;
                                             x9d; xda]] []))))
    by (vm_compute; reflexivity).
  split; [exact E | exact (get_last_alarms_returns_digits _ _ _ _ _ E)].
Defined.

(** ** Cumulated energy *)

Lemma dict_get_In {V : Type} (d : dict V) (k : string) (v : V) :
  dict_get d k = Some v -> In (k, v) d.
Proof.
  induction d as [| [k' v'] d IH]; cbn [dict_get]; [discriminate |].
  destruct (String.eqb_spec k' k) as [-> | _].
  - intros [= ->]. now left.
  - intros H. right. now apply IH.
Qed.

(** No period name is the name of a reading. *)
Lemma period_is_no_reading (period : string) :
  contains MANIFEST period = true -> lookup commands period = None.
Proof.
  unfold contains. destruct (dict_get MANIFEST period) as [reading |] eqn:G;
    [| discriminate].
  intros _. apply dict_get_In in G. unfold MANIFEST in G. cbn [In] in G.
  repeat destruct G as [G | G]; try contradiction;
    injection G as <- <-; vm_compute; reflexivity.
Qed.

(** X24: asked for one period, [get_cumulated_energy] never gives a value.
    For each of the six period names it hands the period itself to
    [do_cmd], not the reading that [MANIFEST] gives for it, and no period
    is a reading: [KeyError], with nothing sent to the inverter.  For any
    other name it returns [None]. *)
Theorem get_cumulated_energy_of_a_period (weewx : weewx_package)
    (self : AuroraDriver) (iteritems : list (string * string))
    (period : string) (p : serial_port) :
  get_cumulated_energy weewx self iteritems (Some period) p
  = if contains MANIFEST period
    then (Raised (KeyError period), p)
    else (Returned None, p).
Proof.
  unfold get_cumulated_energy.
  destruct (contains MANIFEST period) eqn:C; [| reflexivity].
  apply period_is_no_reading in C.
  unfold do_cmd_data, do_cmd, send_cmd_with_crc, io_bind, lift, commands_get.
  rewrite C. reflexivity.
Qed.

Lemma dict_get_setitem_same {V : Type} (d : dict V) (k : string) (v : V) :
  dict_get (setitem d k v) k = Some v.
Proof.
  induction d as [| [k' v'] d IH]; cbn [setitem dict_get].
  - now rewrite String.eqb_refl.
  - destruct (String.eqb k' k) eqn:E; cbn [dict_get]; now rewrite E.
Qed.

Lemma dict_get_setitem_other {V : Type} (d : dict V) (k k' : string) (v : V) :
  k <> k' -> dict_get (setitem d k v) k' = dict_get d k'.
Proof.
  intros N. induction d as [| [k0 v0] d IH]; cbn [setitem dict_get].
  - destruct (String.eqb_spec k k'); [contradiction | reflexivity].
  - destruct (String.eqb_spec k0 k) as [-> | Hk]; cbn [dict_get].
    + destruct (String.eqb_spec k k'); [contradiction | reflexivity].
    + now rewrite IH.
Qed.

(** When the loop returns, every key of its items has a value, and every
    value in the dictionary was there before or was returned for one of
    the readings. *)
Lemma read_all_returns (weewx : weewx_package) (self : AuroraDriver)
    (P : option value -> Prop) (items : list (string * string)) :
  (forall key reading p v p',
      In (key, reading) items ->
      do_cmd_data weewx self reading 0 p = (Returned v, p') -> P v) ->
  forall d p d' p',
    read_all weewx self items d p = (Returned d', p') ->
    (forall k v, dict_get d k = Some v -> P v) ->
    (forall k v, dict_get d' k = Some v -> P v)
    /\ (forall k, (In k (map fst items) \/ dict_get d k <> None) ->
                  dict_get d' k <> None).
Proof.
  induction items as [| [key reading] items IH]; intros HP d p d' p'.
  - cbn [read_all]. intros [= <- <-] Hd. split; [exact Hd |].
    intros k [[] | H]; exact H.
  - cbn [read_all].
    destruct (do_cmd_data weewx self reading 0 p) as [[v | e |] p1] eqn:E;
      try discriminate.
    intros R Hd.
    assert (Pv : P v) by (apply (HP key reading p v p1); [now left | exact E]).
    apply IH in R.
    + destruct R as [R1 R2]. split; [exact R1 |].
      intros k [[<- | H] | H].
      * apply R2. right. cbn [fst]. rewrite dict_get_setitem_same. discriminate.
      * apply R2. now left.
      * apply R2. right.
        destruct (String.eqb_spec key k) as [<- | N].
        -- rewrite dict_get_setitem_same. discriminate.
        -- now rewrite dict_get_setitem_other.
    + intros key' reading' q v' q' Hin. apply (HP key'). now right.
    + intros k v'. destruct (String.eqb_spec key k) as [<- | N].
      * rewrite dict_get_setitem_same. now intros [= <-].
      * rewrite dict_get_setitem_other by exact N. apply Hd.
Qed.

(** An energy reading is an integer below 2^32. *)
Lemma energy_reading (weewx : weewx_package) (self : AuroraDriver)
    (key reading : string) (p p' : serial_port) (v : option value) :
  In (key, reading) MANIFEST ->
  do_cmd_data weewx self reading 0 p = (Returned v, p') ->
  exists n, v = Some (DInt n) /\ 0 <= n < 2 ^ 32.
Proof.
  intros Hin H. apply do_cmd_data_returned in H.
  destruct H as (r & E & ->). apply do_cmd_returns in E.
  destruct E as (c & b0 & b1 & b2 & b3 & b4 & b5 & L & D).
  assert (F : fn c = dec_int).
  { unfold MANIFEST in Hin. cbn [In] in Hin.
    repeat destruct Hin as [Hin | Hin]; try contradiction;
      injection Hin as <- <-; vm_compute in L; injection L as <-;
      reflexivity. }
  rewrite F in D. cbn [decode] in D.
  change (_dec_int [b0; b1; b2; b3; b4; b5])
    with (Return (mkResponseTuple
                    (Some (Py.ord b0)) (Some (Py.ord b1))
                    (Some (DInt (Py.ord b2 * 2 ^ 24 + Py.ord b3 * 2 ^ 16
                                 + Py.ord b4 * 2 ^ 8 + Py.ord b5))))) in D.
  cbn [bind] in D. injection D as <-. cbn [data].
  eexists. split; [reflexivity |].
  pose proof (ord_range b2). pose proof (ord_range b3).
  pose proof (ord_range b4). pose proof (ord_range b5).
  change (2 ^ 24) with 16777216. change (2 ^ 16) with 65536.
  change (2 ^ 8) with 256. change (2 ^ 32) with 4294967296. lia.
Qed.

(** X25: asked for all periods, [get_cumulated_energy] returns, when it
    returns, a dictionary that has for each of the six periods an integer
    below 2^32, in whatever order [MANIFEST] yields its items; it never
    returns a dictionary with a period missing or with [None] for a
    value. *)
Theorem get_cumulated_energy_of_all_periods (weewx : weewx_package)
    (self : AuroraDriver) (iteritems : list (string * string))
    (p p' : serial_port) (result : option (dict (option value))) :
  (forall item, In item iteritems <-> In item MANIFEST) ->
  get_cumulated_energy weewx self iteritems None p = (Returned result, p') ->
  exists _energy,
    result = Some _energy
    /\ forall period reading,
         In (period, reading) MANIFEST ->
         exists n, dict_get _energy period = Some (Some (DInt n))
                   /\ 0 <= n < 2 ^ 32.
Proof.
  intros Hitems. unfold get_cumulated_energy.
  destruct (read_all weewx self iteritems [] p) as [[d | e |] p1] eqn:R;
    try discriminate.
  intros [= <- _]. exists d. split; [reflexivity |].
  apply (read_all_returns weewx self
           (fun v => exists n, v = Some (DInt n) /\ 0 <= n < 2 ^ 32)) in R.
  - destruct R as [R1 R2]. intros period reading Hin.
    specialize (R2 period).
    destruct (dict_get d period) as [v |] eqn:G.
    + destruct (R1 _ _ G) as (n & -> & Hn). now exists n.
    + exfalso. apply R2; [| reflexivity]. left.
      apply Hitems in Hin. apply (in_map fst) in Hin. exact Hin.
  - intros key reading q v q' Hin. apply Hitems in Hin.
    now apply (energy_reading weewx self key reading q q').
  - intros k v. cbn [dict_get]. discriminate.
Qed.

Lemma get_cumulated_energy_of_all_periods_witness :
  (forall item, In item (rev MANIFEST) <-> In item MANIFEST)
  /\ get_cumulated_energy weewx_released sample_driver (rev MANIFEST) None
       six_answers
     = (Returned (Some [("partial", Some (DInt 256));
                        ("total", Some (DInt 256));
                        ("year", Some (DInt 256));
                        ("month", Some (DInt 256));
                        ("week", Some (DInt 256));
                        ("day", Some (DInt 256))]%string),
        snd (get_cumulated_energy weewx_released sample_driver
               (rev MANIFEST) None six_answers))
  /\ exists _energy,
       Some [("partial", Some (DInt 256)); ("total", Some (DInt 256));
             ("year", Some (DInt 256)); ("month", Some (DInt 256));
             ("week", Some (DInt 256)); ("day", Some (DInt 256))]%string
       = Some _energy
       /\ forall period reading,
            In (period, reading) MANIFEST ->
            exists n, dict_get _energy period = Some (Some (DInt n))
                      /\ 0 <= n < 2 ^ 32.
Proof.
  assert (H : forall item, In item (rev MANIFEST) <-> In item MANIFEST)
    by (intros item; symmetry; apply in_rev).
  assert (E : get_cumulated_energy weewx_released sample_driver
                (rev MANIFEST) None six_answers
              = (Returned (Some [("partial", Some (DInt 256));
                                 ("total", Some (DInt 256));
                                 ("year", Some (DInt 256));
                                 ("month", Some (DInt 256));
                                 ("week", Some (DInt 256));
                                 ("day", Some (DInt 256))]%string),
                 snd (get_cumulated_energy weewx_released sample_driver
                        (rev MANIFEST) None six_answers)))
    by (vm_compute; reflexivity).
  split; [exact H |]. split; [exact E |].
  exact (get_cumulated_energy_of_all_periods _ _ _ _ _ _ H E).
Defined.

(** ** Raw packets *)

Lemma do_cmd_data_state (weewx : weewx_package) (self : AuroraDriver)
    (globall : Z) (p p' : serial_port) (v : option value) :
  do_cmd_data weewx self "state" globall p = (Returned v, p') -> False.
Proof.
  intros H. apply do_cmd_data_returned in H.
  destruct H as (r & E & _). apply do_cmd_returns in E.
  destruct E as (c & b0 & b1 & b2 & b3 & b4 & b5 & L & D).
  change (lookup commands "state") with (Some (mkCommand 50 0 dec_state)) in L.
  injection L as <-. cbn [fn decode] in D. discriminate.
Qed.

Lemma read_all_state (weewx : weewx_package) (self : AuroraDriver)
    (items : list (string * string)) (d : dict (option value))
    (p : serial_port) :
  In "state"%string (map snd items) ->
  fst (read_all weewx self items d p) = AttributeError
  \/ exists e, fst (read_all weewx self items d p) = Raised e.
Proof.
  revert d p. induction items as [| [key reading] items IH]; intros d p;
    [intros [] |].
  cbn [map snd In read_all]. intros Hin.
  destruct (do_cmd_data weewx self reading 0 p) as [[v | e |] p1] eqn:E.
  - destruct Hin as [-> | Hin]; [| now apply IH].
    exfalso. exact (do_cmd_data_state _ _ _ _ _ _ E).
  - right. now exists e.
  - now left.
Qed.

(** X26: a manifest that names the reading [state] makes every
    [get_raw_packet] fail.  The decode function of [state] is a stub that
    returns [None], so [do_cmd('state').data] is an [AttributeError]
    whenever the inverter answers; no packet is ever returned. *)
Theorem state_in_manifest_never_returns (weewx : weewx_package)
    (self : AuroraDriver) (p : serial_port) :
  In "state"%string (manifest self) ->
  fst (get_raw_packet weewx self p) = AttributeError
  \/ exists e, fst (get_raw_packet weewx self p) = Raised e.
Proof.
  intros Hin. unfold get_raw_packet. apply read_all_state.
  rewrite map_map. cbn [snd]. now rewrite map_id.
Qed.

Lemma state_in_manifest_never_returns_witness :
  In "state"%string
    (manifest (mkDriver "Aurora" "/dev/ttyUSB0" 3 10 2 false None
                 [("gridVoltage", "gridV"); ("inverterState", "state")]%string
                 ["gridV"; "state"]%string))
  /\ (fst (get_raw_packet weewx_released
             (mkDriver "Aurora" "/dev/ttyUSB0" 3 10 2 false None
                [("gridVoltage", "gridV"); ("inverterState", "state")]%string
                ["gridV"; "state"]%string)
             six_answers) = AttributeError
      \/ exists e,
           fst (get_raw_packet weewx_released
                  (mkDriver "Aurora" "/dev/ttyUSB0" 3 10 2 false None
                     [("gridVoltage", "gridV");
                      ("inverterState", "state")]%string
                     ["gridV"; "state"]%string)
                  six_answers) = Raised e).
Proof.
  assert (H : In "state"%string
                (manifest (mkDriver "Aurora" "/dev/ttyUSB0" 3 10 2 false None
                             [("gridVoltage", "gridV");
                              ("inverterState", "state")]%string
                             ["gridV"; "state"]%string)))
    by (simpl; auto).
  split; [exact H |].
  exact (state_in_manifest_never_returns weewx_released _ six_answers H).
Defined.

(** ** The field map and the manifest *)

Lemma dict_get_keys {V : Type} (d : dict V) (k : string) (v : V) :
  dict_get d k = Some v -> In k (map fst d).
Proof. intros H. apply dict_get_In in H. now apply (in_map fst) in H. Qed.

Lemma In_dict_get {V : Type} (d : dict V) (k : string) (v : V) :
  NoDup (map fst d) -> In (k, v) d -> dict_get d k = Some v.
Proof.
  induction d as [| [k' v'] d IH]; cbn [map fst dict_get In]; [intros _ [] |].
  intros N [[= -> ->] | Hin].
  - now rewrite String.eqb_refl.
  - inversion N as [| ? ? Hnot N']; subst.
    destruct (String.eqb_spec k' k) as [-> | _]; [| now apply IH].
    exfalso. apply Hnot. now apply (in_map fst) in Hin.
Qed.

Lemma valid_entries_keys (items : list (string * string)) (k : string) :
  In k (map fst (valid_entries items)) -> In k (map fst items).
Proof.
  unfold valid_entries. intros H. apply in_map_iff in H.
  destruct H as (item & <- & H). apply filter_In in H.
  apply in_map. tauto.
Qed.

Lemma valid_entries_NoDup (items : list (string * string)) :
  NoDup (map fst items) -> NoDup (map fst (valid_entries items)).
Proof.
  induction items as [| [dest src] items IH]; cbn [map fst]; [trivial |].
  intros N. inversion N as [| ? ? Hnot N']; subst.
  unfold valid_entries. cbn [filter snd].
  destruct (in_commands src); [| now apply IH].
  cbn [map fst]. constructor; [| now apply IH].
  intros H. apply Hnot. now apply valid_entries_keys.
Qed.

(** The loop, from any field map and manifest. *)
Lemma _build_map_manifest_loop_result (items : list (string * string)) :
  NoDup (map fst items) ->
  forall _field_map _manifest,
    snd (_build_map_manifest_loop items _field_map _manifest)
    = _manifest ++ map snd (valid_entries items)
    /\ forall dest,
         dict_get (fst (_build_map_manifest_loop items _field_map _manifest))
           dest
         = match dict_get (valid_entries items) dest with
           | Some src => Some src
           | None => dict_get _field_map dest
           end.
Proof.
  induction items as [| [dest0 src0] items IH]; intros N fm mf.
  - cbn. rewrite app_nil_r. now split.
  - cbn [map fst] in N. inversion N as [| ? ? Hnot N']; subst.
    cbn [_build_map_manifest_loop]. unfold valid_entries. cbn [filter snd].
    fold (valid_entries items).
    destruct (in_commands src0).
    + destruct (IH N' (setitem fm dest0 src0) (mf ++ [src0])) as [M F].
      split.
      * rewrite M, <- app_assoc. reflexivity.
      * intros dest. rewrite F. cbn [dict_get].
        destruct (String.eqb_spec dest0 dest) as [<- | Hd].
        -- destruct (dict_get (valid_entries items) dest0) as [src |] eqn:G.
           ++ exfalso. apply Hnot. apply dict_get_keys in G.
              now apply valid_entries_keys.
           ++ apply dict_get_setitem_same.
        -- destruct (dict_get (valid_entries items) dest); [reflexivity |].
           now apply dict_get_setitem_other.
    + apply (IH N').
Qed.

(** X27: [_build_map_manifest] keeps the entries of the configured field
    map whose source is a reading of the registry and drops the others:
    the manifest is the sources of the kept entries in the order of the
    iteration, every reading in it is a key of [commands], and the field
    map has a destination exactly when the configuration maps it to a
    reading of the registry, which it then gives. *)
Theorem _build_map_manifest_result (items : list (string * string)) :
  NoDup (map fst items) ->
  exists _field_map _manifest,
    _build_map_manifest (Some items) = Returned (_field_map, _manifest)
    /\ _manifest = map snd (valid_entries items)
    /\ Forall (fun reading => in_commands reading = true) _manifest
    /\ forall dest src,
         dict_get _field_map dest = Some src
         <-> (In (dest, src) items /\ in_commands src = true).
Proof.
  intros N. unfold _build_map_manifest.
  destruct (_build_map_manifest_loop_result items N [] []) as [M F].
  destruct (_build_map_manifest_loop items [] []) as [fm mf].
  cbn [fst snd app] in M, F. exists fm, mf.
  split; [reflexivity |]. split; [exact M |]. split.
  - rewrite M. apply Forall_forall. intros reading H.
    apply in_map_iff in H. destruct H as (item & <- & H).
    unfold valid_entries in H. apply filter_In in H. tauto.
  - intros dest src. rewrite F. cbn [dict_get]. split.
    + destruct (dict_get (valid_entries items) dest) as [s |] eqn:G;
        [| discriminate].
      intros [= ->]. apply dict_get_In in G. unfold valid_entries in G.
      apply filter_In in G. exact G.
    + intros [Hin Hv].
      rewrite (In_dict_get (valid_entries items) dest src);
        [reflexivity | now apply valid_entries_NoDup |].
      unfold valid_entries. apply filter_In. now split.
Qed.

Lemma _build_map_manifest_result_witness :
  NoDup (map fst [("gridVoltage", "gridV"); ("efficiency", "DcAcCvrEff");
                  ("dayEnergy", "dayEnergy")]%string)
  /\ exists _field_map _manifest,
       _build_map_manifest
         (Some [("gridVoltage", "gridV"); ("efficiency", "DcAcCvrEff");
                ("dayEnergy", "dayEnergy")]%string)
       = Returned (_field_map, _manifest)
       /\ _manifest
          = map snd (valid_entries
                       [("gridVoltage", "gridV");
                        ("efficiency", "DcAcCvrEff");
                        ("dayEnergy", "dayEnergy")]%string)
       /\ Forall (fun reading => in_commands reading = true) _manifest
       /\ forall dest src,
            dict_get _field_map dest = Some src
            <-> (In (dest, src)
                   [("gridVoltage", "gridV"); ("efficiency", "DcAcCvrEff");
                    ("dayEnergy", "dayEnergy")]%string
                 /\ in_commands src = true).
Proof.
  assert (N : NoDup (map fst [("gridVoltage", "gridV");
                              ("efficiency", "DcAcCvrEff");
                              ("dayEnergy", "dayEnergy")]%string)).
  { simpl. repeat constructor; simpl; intuition discriminate. }
  split; [exact N | exact (_build_map_manifest_result _ N)].
Defined.

Lemma _build_map_manifest_loop_known (items : list (string * string)) :
  forall _field_map _manifest,
    Forall (fun reading => in_commands reading = true) _manifest ->
    Forall (fun reading => in_commands reading = true)
      (snd (_build_map_manifest_loop items _field_map _manifest)).
Proof.
  induction items as [| [dest src] items IH]; intros fm mf H; [exact H |].
  cbn [_build_map_manifest_loop].
  destruct (in_commands src) eqn:V; [| now apply IH].
  apply IH. apply Forall_app. split; [exact H |]. now repeat constructor.
Qed.

Lemma read_all_raises (weewx : weewx_package) (self : AuroraDriver)
    (items : list (string * string)) (e : exn) :
  Forall (fun reading => in_commands reading = true) (map snd items) ->
  forall d p,
    fst (read_all weewx self items d p) = Raised e ->
    e = WeeWxIOError unable
    \/ (exists msg, e = SerialException msg)
    \/ (CRCError_is_a_WeeWxIOError weewx = false /\ e = CRCError crc_failed)
    \/ e = ValueError.
Proof.
  induction items as [| [key reading] items IH]; intros K d p;
    [discriminate |].
  cbn [map snd] in K. inversion K as [| ? ? Kr K']; subst.
  cbn [read_all]. unfold do_cmd_data at 1.
  pose proof (do_cmd_raises weewx self reading 0 p) as R.
  destruct (do_cmd weewx self reading 0 p) as [[[r |] | e1] p1].
  - now apply IH.
  - discriminate.
  - cbn [fst]. intros [= <-]. apply R; [exact Kr | lia | reflexivity].
Qed.

Lemma state_is_the_stub (reading : string) (c : command) :
  lookup commands reading = Some c -> fn c = dec_state ->
  reading = "state"%string.
Proof.
  intros L F. apply lookup_In in L. unfold commands in L. cbn [In] in L.
  repeat destruct L as [L | L]; try contradiction;
    injection L as <- <-; first [reflexivity | discriminate F].
Qed.

Lemma decode_None (fn : decoder) (v : list byte) :
  decode fn v = Return None -> fn = dec_state.
Proof.
  destruct fn; cbn [decode]; [reflexivity | ..];
    match goal with
    | |- bind ?m _ = _ -> _ => destruct m; cbn [bind]; discriminate
    end.
Qed.

(** [do_cmd] returns [None] for the reading [state] only. *)
Lemma do_cmd_None (weewx : weewx_package) (self : AuroraDriver)
    (reading : string) (globall : Z) (p p' : serial_port) :
  do_cmd weewx self reading globall p = (Return None, p') ->
  reading = "state"%string.
Proof.
  intros H. apply do_cmd_returns in H.
  destruct H as (c & b0 & b1 & b2 & b3 & b4 & b5 & L & D).
  apply decode_None in D. exact (state_is_the_stub _ _ L D).
Qed.

Lemma read_all_outcome (weewx : weewx_package) (self : AuroraDriver)
    (items : list (string * string)) :
  Forall (fun reading => in_commands reading = true) (map snd items) ->
  forall d p,
    match fst (read_all weewx self items d p) with
    | Returned _ => True
    | AttributeError => In "state"%string (map snd items)
    | Raised e =>
        e = WeeWxIOError unable
        \/ (exists msg, e = SerialException msg)
        \/ (CRCError_is_a_WeeWxIOError weewx = false
            /\ e = CRCError crc_failed)
        \/ e = ValueError
    end.
Proof.
  induction items as [| [key reading] items IH]; intros K d p;
    [exact I |].
  cbn [map snd] in K. inversion K as [| ? ? Kr K']; subst.
  cbn [read_all map snd]. unfold do_cmd_data at 1.
  pose proof (do_cmd_raises weewx self reading 0 p) as R.
  destruct (do_cmd weewx self reading 0 p) as [[[r |] | e1] p1] eqn:E.
  - specialize (IH K' (setitem d key (data r)) p1).
    destruct (fst (read_all weewx self items _ p1)); trivial.
    now right.
  - cbn [fst]. left. exact (do_cmd_None _ _ _ _ _ _ E).
  - cbn [fst]. apply R; [exact Kr | lia | reflexivity].
Qed.

(** X28: with the manifest that [_build_map_manifest] built,
    [get_raw_packet] never fails on the name of a reading: it raises no
    [KeyError] and no [struct.error].  What it raises is what an exchange
    with the inverter can raise, or the [AttributeError] of the [state]
    stub, and that one only when the manifest names [state]. *)
Theorem built_manifest_is_known (weewx : weewx_package)
    (self : AuroraDriver) (items : list (string * string))
    (_field_map : dict string) (p : serial_port) :
  _build_map_manifest (Some items) = Returned (_field_map, manifest self) ->
  match fst (get_raw_packet weewx self p) with
  | Returned _ => True
  | AttributeError => In "state"%string (manifest self)
  | Raised e =>
      e = WeeWxIOError unable
      \/ (exists msg, e = SerialException msg)
      \/ (CRCError_is_a_WeeWxIOError weewx = false
          /\ e = CRCError crc_failed)
      \/ e = ValueError
  end.
Proof.
  unfold _build_map_manifest, get_raw_packet. intros B.
  pose proof (_build_map_manifest_loop_known items [] [] (Forall_nil _)) as K.
  injection B as B. rewrite B in K.
  pose proof (read_all_outcome weewx self
                (map (fun reading => (reading, reading)) (manifest self)))
    as H.
  rewrite map_map in H. cbn [snd] in H. rewrite map_id in H.
  exact (H K [] p).
Qed.

Lemma built_manifest_is_known_witness :
  _build_map_manifest
    (Some [("gridVoltage", "gridV"); ("efficiency", "DcAcCvrEff");
           ("inverterState", "state")]%string)
  = Returned ([("gridVoltage", "gridV"); ("inverterState", "state")]%string,
              manifest (mkDriver "Aurora" "/dev/ttyUSB0" 3 10 2 false None
                          [("gridVoltage", "gridV");
                           ("inverterState", "state")]%string
                          ["gridV"; "state"]%string))
  /\ match fst (get_raw_packet weewx_released
                  (mkDriver "Aurora" "/dev/ttyUSB0" 3 10 2 false None
                     [("gridVoltage", "gridV");
                      ("inverterState", "state")]%string
                     ["gridV"; "state"]%string)
                  six_answers) with
     | Returned _ => True
     | AttributeError =>
         In "state"%string
           (manifest (mkDriver "Aurora" "/dev/ttyUSB0" 3 10 2 false None
                        [("gridVoltage", "gridV");
                         ("inverterState", "state")]%string
                        ["gridV"; "state"]%string))
     | Raised e =>
         e = WeeWxIOError unable
         \/ (exists msg, e = SerialException msg)
         \/ (CRCError_is_a_WeeWxIOError weewx_released = false
             /\ e = CRCError crc_failed)
         \/ e = ValueError
     end.
Proof.
  assert (B : _build_map_manifest
                (Some [("gridVoltage", "gridV");
                       ("efficiency", "DcAcCvrEff");
                       ("inverterState", "state")]%string)
              = Returned ([("gridVoltage", "gridV");
                           ("inverterState", "state")]%string,
                          manifest (mkDriver "Aurora" "/dev/ttyUSB0" 3 10 2
                                      false None
                                      [("gridVoltage", "gridV");
                                       ("inverterState", "state")]%string
                                      ["gridV"; "state"]%string)))
    by (vm_compute; reflexivity).
  split; [exact B |].
  exact (built_manifest_is_known weewx_released _ _ _ six_answers B).
Defined.

(** ** Energy *)

(** X29: over readings of the day's energy that never go down, the energy
    of every packet after the first is a number, none is negative, and
    together they are the last reading less the first: nothing is lost or
    counted twice. *)
Theorem calculate_energy_telescopes (first : Z) (readings : list Z) :
  nondecreasing first readings ->
  Forall (fun energy => exists delta, energy = Some delta /\ 0 <= delta)
    (energies (Some first) (map Some readings))
  /\ total (energies (Some first) (map Some readings))
     = last readings first - first.
Proof.
  revert first. induction readings as [| next readings IH]; intros first.
  - intros _. cbn. split; [constructor | lia].
  - cbn [nondecreasing]. intros [Hle Hs].
    destruct (IH next Hs) as [F T].
    cbn [map energies calculate_energy].
    destruct (Z.geb_spec next first) as [_ | Hlt]; [| lia].
    split.
    + constructor; [| exact F]. exists (next - first). split; [reflexivity | lia].
    + cbn [total]. rewrite T.
      destruct readings as [| r readings]; cbn [last]; [lia |].
      assert (L : forall a b, last (r :: readings) a = last (r :: readings) b).
      { clear. revert r. induction readings as [| x l IHl]; intros r a b;
          [reflexivity |].
        change (last (x :: l) a = last (x :: l) b). apply IHl. }
      change (match readings with [] => r | _ :: _ => last readings next end)
        with (last (r :: readings) next).
      change (match readings with [] => r | _ :: _ => last readings first end)
        with (last (r :: readings) first).
      rewrite (L next first). lia.
Qed.

Lemma calculate_energy_telescopes_witness :
  nondecreasing 100 [100; 130; 175]
  /\ energies (Some 100) (map Some [100; 130; 175])
     = [Some 0; Some 30; Some 45]
  /\ total (energies (Some 100) (map Some [100; 130; 175]))
     = last [100; 130; 175] 100 - 100.
Proof.
  assert (H : nondecreasing 100 [100; 130; 175]) by (simpl; lia).
  split; [exact H |]. split; [reflexivity |].
  exact (proj2 (calculate_energy_telescopes 100 [100; 130; 175] H)).
Defined.

(** ** Bytes as text *)

Lemma format_byte_to_hex_cons (b : byte) (bytes : list byte) :
  format_byte_to_hex (b :: bytes)
  = String (hex_digit (Py.ord b / 16))
      (String (hex_digit (Py.ord b mod 16))
         match bytes with
         | [] => EmptyString
         | _ :: _ => String " " (format_byte_to_hex bytes)
         end).
Proof.
  unfold format_byte_to_hex. cbn [map join].
  destruct bytes as [| c bytes]; reflexivity.
Qed.

Lemma hex_digit_inj (i j : Z) :
  0 <= i < 16 -> 0 <= j < 16 -> hex_digit i = hex_digit j -> i = j.
Proof.
  intros Hi Hj. unfold hex_digit.
  assert (N : forall n m : nat,
             (n < 16)%nat -> (m < 16)%nat ->
             nth n (list_ascii_of_string "0123456789ABCDEF") "0"%char
             = nth m (list_ascii_of_string "0123456789ABCDEF") "0"%char ->
             n = m).
  { intros n m Hn Hm.
    do 16 (destruct n as [| n]; [do 16 (destruct m as [| m];
      [first [reflexivity | discriminate] |]); lia |]). lia. }
  intros H. apply N in H; lia.
Qed.

Lemma fmt_02X_inj (b c : byte) :
  hex_digit (Py.ord b / 16) = hex_digit (Py.ord c / 16) ->
  hex_digit (Py.ord b mod 16) = hex_digit (Py.ord c mod 16) ->
  b = c.
Proof.
  intros Hq Hr. pose proof (ord_range b). pose proof (ord_range c).
  apply hex_digit_inj in Hq;
    [| split; [apply Z.div_pos | apply Z.div_lt_upper_bound]; lia
     | split; [apply Z.div_pos | apply Z.div_lt_upper_bound]; lia].
  apply hex_digit_inj in Hr; [| apply Z.mod_pos_bound; lia ..].
  apply ord_inj.
  rewrite (Z.div_mod (Py.ord b) 16), (Z.div_mod (Py.ord c) 16) by lia.
  now rewrite Hq, Hr.
Qed.

(** X30: [format_byte_to_hex] writes three characters for a byte, less the
    last space, and loses nothing: two byte strings that format to the
    same text are the same. *)
Theorem format_byte_to_hex_faithful (bytes : list byte) :
  String.length (format_byte_to_hex bytes)
  = (3 * List.length bytes - 1)%nat
  /\ forall other,
       format_byte_to_hex bytes = format_byte_to_hex other -> bytes = other.
Proof.
  split.
  - induction bytes as [| b bytes IH]; [reflexivity |].
    rewrite format_byte_to_hex_cons. cbn [String.length List.length].
    destruct bytes as [| c bytes]; [reflexivity |].
    cbn [String.length]. rewrite IH. cbn [List.length]. lia.
  - induction bytes as [| b bytes IH]; intros [| c other].
    + reflexivity.
    + rewrite format_byte_to_hex_cons. discriminate.
    + rewrite format_byte_to_hex_cons. discriminate.
    + rewrite !format_byte_to_hex_cons. intros [= Hq Hr Ht].
      rewrite (fmt_02X_inj b c Hq Hr). f_equal.
      destruct bytes as [| b' bytes], other as [| c' other];
        try discriminate; [reflexivity |].
      injection Ht as Ht. now apply IH.
Qed.
